(** * The vote-extension price oracle (skip-mev/vote-ext-oracle-demo)

    A shallow embedding of the Go packages [keepers] and [abci] and the
    properties of their four ABCI hooks: the provider aggregator, ExtendVote,
    VerifyVoteExtension, PrepareProposal and ProcessProposal.

    Conventions.
    - A Go [map[string]V] is a [gmap string V]; a nil Go map and an empty one
      read the same and are both the empty [gmap].
    - A Go [[]byte] is a [string] of 8-bit characters.
    - An [int64] is a [Z] with the wrap-around of its arithmetic written out
      ([wrap64]).
    - A Go function that can return an error, or abort with a run-time panic,
      returns an [outcome]. *)

From Stdlib Require Import ZArith String Ascii List Lia Permutation.
From stdpp Require Import base option list gmap strings fin_maps sorting.

Local Open Scope string_scope.
Local Open Scope Z_scope.

(** ** Results of Go calls *)

(** The error values the two packages build with [fmt.Errorf], and the ones
    they pass on from [encoding/json]. *)
Inductive error : Type :=
| ErrJSON (msg : string)
| ErrProvider (providerName msg : string)
| ErrProviderTimedOut (providerName : string)
| ErrNoExchangeRates
| ErrFindPrice (base : string)
| ErrMarshalVoteExt (cause : error)
| ErrUnmarshalVoteExt (cause : error)
| ErrHeightMismatch (expected got : Z)
| ErrVerifyPrices (validator : string) (cause : error).

(** Run-time panics: the only one this code can reach is the division by zero
    of [big.Int.Quo] under [sdk.Dec.QuoInt64]. *)
Inductive panic : Type :=
| PanicDivisionByZero.

Inductive outcome (A : Type) : Type :=
| Ok (a : A)
| Err (e : error)
| Panic (p : panic).

Arguments Ok {A} a.
Arguments Err {A} e.
Arguments Panic {A} p.

Definition is_Ok {A} (o : outcome A) : Prop := ∃ a, o = Ok a.
Definition is_Err {A} (o : outcome A) : Prop := ∃ e, o = Err e.

(** ** int64 *)

Definition int64_min : Z := - 2 ^ 63.
Definition int64_max : Z := 2 ^ 63 - 1.

Definition is_int64 (z : Z) : Prop := int64_min ≤ z ≤ int64_max.

(** The value an [int64] holds after an operation whose exact result is [z]. *)
Definition wrap64 (z : Z) : Z := (z + 2 ^ 63) mod 2 ^ 64 - 2 ^ 63.

(** ** Package sdk: the decimal type *)

Module sdk.

(** Modelled from the spec: [sdk.Dec] (cosmos-sdk's [LegacyDec]) is library
    code outside the repository; section 1 of the specification takes it as
    an arbitrary-precision decimal with the standard add, multiply and
    divide. As in the library, a decimal is the integer [value * 10^18];
    the library's cap on the integer's bit length is not modelled. *)
Abbreviation Dec := Z.

(** Modelled from the spec: the number of decimal places of the decimal
    strings. *)
Definition Precision : Z := 18.

(** Modelled from the spec: the decimal zero. *)
Definition ZeroDec : Dec := 0.

(** Modelled from the spec: exact addition. *)
Definition Add (d d2 : Dec) : Dec := d + d2.

(** Modelled from the spec: exact multiplication by an [int64]. *)
Definition MulInt64 (d : Dec) (i : Z) : Dec := d * i.

(** Modelled from the spec: division by an [int64], truncated towards zero
    as the library's [big.Int.Quo] does. Division by zero is undefined
    (section 4.5): there is no result, and the library call panics. *)
Definition QuoInt64 (d : Dec) (i : Z) : option Dec :=
  if decide (i = 0) then None else Some (Z.quot d i).

(** The decimal with integer value [n]. *)
Definition NewDec (n : Z) : Dec := n * 10 ^ Precision.

End sdk.

(** ** Package keepers *)

Module keepers.

Record TickerPrice : Type := {
  Price : sdk.Dec;   (* last trade price *)
  Volume : sdk.Dec   (* 24h volume *)
}.

Record CandlePrice : Type := {
  CandlePrice_Price : sdk.Dec;
  CandlePrice_Volume : sdk.Dec;
  TimeStamp : Z
}.

(** provider -> asset -> TickerPrice *)
Abbreviation AggregatedProviderPrices :=
  (gmap string (gmap string TickerPrice)).

(** provider -> asset -> []CandlePrice *)
Abbreviation AggregatedProviderCandles :=
  (gmap string (gmap string (list CandlePrice))).

Record CurrencyPair : Type := {
  Base : string;
  Quote : string
}.

(** [func (cp CurrencyPair) String() string] *)
Definition CurrencyPair_String (cp : CurrencyPair) : string :=
  Base cp +:+ Quote cp.

Record FauxOracleKeeper : Type := {
  prices : gmap string sdk.Dec
}.

Definition GetSupportedPairs (k : FauxOracleKeeper) : list CurrencyPair :=
  [ {| Base := "ATOM"; Quote := "USD" |} ].

(** [func (k FauxOracleKeeper) SetOraclePrices(...) error]. The receiver is
    passed by value: the assignment [k.prices = prices] changes the callee's
    copy, which is the first component here; the caller's keeper is not
    touched. The second component is the returned error, always nil. *)
Definition SetOraclePrices (k : FauxOracleKeeper) (prices : gmap string sdk.Dec)
  : FauxOracleKeeper * option error :=
  ({| prices := prices |}, None).

End keepers.

Import keepers.

(** ** Package abci: the provider aggregator *)

Record ProviderAggregator : Type := {
  providerPrices : AggregatedProviderPrices;
  providerCandles : AggregatedProviderCandles
}.

Definition NewProviderAggregator : ProviderAggregator :=
  {| providerPrices := ∅; providerCandles := ∅ |}.

(** [p.providerPrices[providerName]] after the two "if we haven't seen it
    before" blocks: the sub-map that is there, or a fresh empty one. *)
Definition ensureProvider {V} (providerName : string)
    (m : gmap string (gmap string V)) : gmap string (gmap string V) :=
  match m !! providerName with
  | Some _ => m
  | None => <[providerName := ∅]> m
  end.

(** [p.providerPrices[providerName][base] = v], for a provider whose sub-map
    exists. *)
Definition setEntry {V} (providerName base : string) (v : V)
    (m : gmap string (gmap string V)) : gmap string (gmap string V) :=
  match m !! providerName with
  | Some sub => <[providerName := <[base := v]> sub]> m
  | None => m
  end.

(** The method runs under the aggregator's mutex, so one call is one atomic
    step on the aggregator: state in, state and result out. The aggregator is
    one built by [NewProviderAggregator], with both maps allocated. *)
Definition SetProviderTickerPricesAndCandles (p : ProviderAggregator)
    (providerName : string)
    (prices : gmap string TickerPrice)
    (candles : gmap string (list CandlePrice))
    (pair : CurrencyPair) : ProviderAggregator * bool :=
  let pp := ensureProvider providerName (providerPrices p) in
  let pc := ensureProvider providerName (providerCandles p) in
  let '(pp, pricesOk) :=
    match prices !! CurrencyPair_String pair with
    | Some tp => (setEntry providerName (Base pair) tp pp, true)
    | None => (pp, false)
    end in
  let '(pc, candlesOk) :=
    match candles !! CurrencyPair_String pair with
    | Some cp => (setEntry providerName (Base pair) cp pc, true)
    | None => (pc, false)
    end in
  ({| providerPrices := pp; providerCandles := pc |}, pricesOk || candlesOk).

(** ** Package abci: wire types *)

(** [OracleVoteExtension] defines the canonical vote extension structure. *)
Record OracleVoteExtension : Type := {
  Height : Z;
  Prices : gmap string sdk.Dec
}.

(** The host's types (cometbft [abci]), with the fields this code reads. *)
Record Validator : Type := {
  Address : string;
  Power : Z
}.

Record ExtendedVoteInfo : Type := {
  vote_Validator : Validator;
  VoteExtension : string
}.

Record ExtendedCommitInfo : Type := {
  Round : Z;
  Votes : list ExtendedVoteInfo
}.

(** The record a proposer injects as the first transaction. *)
Record StakeWeightedPrices : Type := {
  swp_StakeWeightedPrices : gmap string sdk.Dec;
  swp_ExtendedCommitInfo : ExtendedCommitInfo
}.

Record RequestExtendVote : Type := {
  ev_Height : Z
}.

Record ResponseExtendVote : Type := {
  ev_VoteExtension : string
}.

Record RequestVerifyVoteExtension : Type := {
  vv_Height : Z;
  vv_VoteExtension : string;
  vv_ValidatorAddress : string
}.

Inductive VerifyStatus : Type :=
| ResponseVerifyVoteExtension_UNKNOWN
| ResponseVerifyVoteExtension_ACCEPT
| ResponseVerifyVoteExtension_REJECT.

Record ResponseVerifyVoteExtension : Type := {
  vv_Status : VerifyStatus
}.

Record RequestPrepareProposal : Type := {
  LocalLastCommit : ExtendedCommitInfo
}.

Record ResponsePrepareProposal : Type := {
  pp_Txs : list string
}.

Record RequestProcessProposal : Type := {
  Txs : list string
}.

Inductive ProposalStatus : Type :=
| ResponseProcessProposal_UNKNOWN
| ResponseProcessProposal_ACCEPT
| ResponseProcessProposal_REJECT.

Record ResponseProcessProposal : Type := {
  Status : ProposalStatus
}.

(** A handler whose Go type has no error result either returns or panics. *)
Inductive returns (A : Type) : Type :=
| Returned (a : A)
| Panicked (p : panic).

Arguments Returned {A} a.
Arguments Panicked {A} p.

(** ** encoding/json, as the handlers use it *)

(** The four calls of [json.Marshal] and [json.Unmarshal] in the package. The
    handlers below are written over any implementation of them; [GoJSON] at
    the end of the definitions is the one of the reference wire format. *)
Class JSON : Type := {
  Marshal_OracleVoteExtension : OracleVoteExtension → outcome string;
  Unmarshal_OracleVoteExtension : string → outcome OracleVoteExtension;
  Marshal_StakeWeightedPrices : StakeWeightedPrices → outcome string;
  Unmarshal_StakeWeightedPrices : string → outcome StakeWeightedPrices
}.

(** ** Package abci: the proposal handler *)

(** The handler of src/unnamed/part_002, the last version of proposal.go; the
    line numbers below are of that file. Its logger and its [app], which only
    hands out the context [SetOraclePrices] ignores, are left out. An earlier
    version (src/unnamed/part_003) has the body of
    [computeStakeWeightedOraclePrices] inside PrepareProposal, with the same
    return of an empty response where a vote does not decode. *)
Record ProposalHandler : Type := {
  fauxOracleKeeper : FauxOracleKeeper
}.

(** Lines 109-111: every required base starts at zero. *)
Definition initPrices (requiredPairs : list CurrencyPair) : gmap string sdk.Dec :=
  foldl (λ m pair, <[Base pair := sdk.ZeroDec]> m) ∅ requiredPairs.

(** Lines 128-136: the loop over one vote's prices. Go visits the entries in
    an unspecified order; each visit touches the entry of its own base only. *)
Definition addVotePrices (power : Z) (votePrices : gmap string sdk.Dec)
    (stakeWeightedPrices : gmap string sdk.Dec) : gmap string sdk.Dec :=
  map_fold
    (λ base price acc,
       match acc !! base with
       | Some cur => <[base := sdk.Add cur (sdk.MulInt64 price power)]> acc
       | None => acc
       end)
    stakeWeightedPrices votePrices.

(** Lines 140-142: the loop that divides every total by the total stake; the
    division panics when the total stake is zero. *)
Definition divideByStake (totalStake : Z)
    (stakeWeightedPrices : gmap string sdk.Dec) : outcome (gmap string sdk.Dec) :=
  map_fold
    (λ base price (acc : outcome (gmap string sdk.Dec)),
       match acc with
       | Ok m =>
           match sdk.QuoInt64 price totalStake with
           | Some q => Ok (<[base := q]> m)
           | None => Panic PanicDivisionByZero
           end
       | _ => acc
       end)
    (Ok stakeWeightedPrices) stakeWeightedPrices.

Section Handlers.

Context `{!JSON}.

(** Lines 114-137: the loop over the votes, with its two loop-carried
    variables. A vote that does not decode ends the function with the
    decoder's error. *)
Fixpoint votesLoop (votes : list ExtendedVoteInfo)
    (stakeWeightedPrices : gmap string sdk.Dec) (totalStake : Z)
    : outcome (gmap string sdk.Dec * Z) :=
  match votes with
  | [] => Ok (stakeWeightedPrices, totalStake)
  | v :: votes' =>
      match Unmarshal_OracleVoteExtension (VoteExtension v) with
      | Ok voteExt =>
          let totalStake := wrap64 (totalStake + Power (vote_Validator v)) in
          votesLoop votes'
            (addVotePrices (Power (vote_Validator v)) (Prices voteExt)
               stakeWeightedPrices)
            totalStake
      | Err e => Err e
      | Panic p => Panic p
      end
  end.

Definition computeStakeWeightedOraclePrices (h : ProposalHandler)
    (ci : ExtendedCommitInfo) : outcome (gmap string sdk.Dec) :=
  let requiredPairs := GetSupportedPairs (fauxOracleKeeper h) in
  match votesLoop (Votes ci) (initPrices requiredPairs) 0 with
  | Ok (stakeWeightedPrices, totalStake) =>
      divideByStake totalStake stakeWeightedPrices
  | Err e => Err e
  | Panic p => Panic p
  end.

(** [func compareOraclePrices(p1, p2 map[string]sdk.Dec) error { return nil }] *)
Definition compareOraclePrices (p1 p2 : gmap string sdk.Dec) : option error :=
  None.

Definition PrepareProposal (h : ProposalHandler) (req : RequestPrepareProposal)
    : returns ResponsePrepareProposal :=
  match computeStakeWeightedOraclePrices h (LocalLastCommit req) with
  | Err _ => Returned {| pp_Txs := [] |}
  | Panic p => Panicked p
  | Ok stakeWeightedPrices =>
      let injectedVoteExtTx :=
        {| swp_StakeWeightedPrices := stakeWeightedPrices;
           swp_ExtendedCommitInfo := LocalLastCommit req |} in
      match Marshal_StakeWeightedPrices injectedVoteExtTx with
      | Err _ => Returned {| pp_Txs := [] |}
      | Panic p => Panicked p
      | Ok bz => Returned {| pp_Txs := [] ++ [bz] |}
      end
  end.

(** The handler and the response. The handler comes back as it went in:
    [SetOraclePrices] has a value receiver, so the copy it assigns to is
    dropped at the call. *)
Definition ProcessProposal (h : ProposalHandler) (req : RequestProcessProposal)
    : returns (ProposalHandler * ResponseProcessProposal) :=
  match Txs req with
  | [] => Returned (h, {| Status := ResponseProcessProposal_ACCEPT |})
  | tx0 :: _ =>
      match Unmarshal_StakeWeightedPrices tx0 with
      | Err _ => Returned (h, {| Status := ResponseProcessProposal_REJECT |})
      | Panic p => Panicked p
      | Ok injectedVoteExtTx =>
          match computeStakeWeightedOraclePrices h
                  (swp_ExtendedCommitInfo injectedVoteExtTx) with
          | Err _ => Returned (h, {| Status := ResponseProcessProposal_REJECT |})
          | Panic p => Panicked p
          | Ok stakeWeightedPrices =>
              match compareOraclePrices
                      (swp_StakeWeightedPrices injectedVoteExtTx)
                      stakeWeightedPrices with
              | Some _ =>
                  Returned (h, {| Status := ResponseProcessProposal_REJECT |})
              | None =>
                  let '(_, _) :=
                    SetOraclePrices (fauxOracleKeeper h) stakeWeightedPrices in
                  Returned (h, {| Status := ResponseProcessProposal_ACCEPT |})
              end
          end
      end
  end.

End Handlers.

(** ** Package abci: the vote-extension handler *)

(** The handler of src/abci/vote_exts.go; the line numbers below are of that
    file. The logger is left out, and so is the map [providers]: what a
    provider answers is part of a [FetchOutcome]. The repository has no code
    that builds a handler; its maps are taken to be allocated. Times are
    integers. *)
Record VoteExtHandler : Type := {
  currentBlock : Z;
  lastPriceSyncTS : Z;
  providerTimeout : Z;
  providerPairs : gmap string (list CurrencyPair);
  computedPrices : gmap Z (gmap string sdk.Dec);
  FauxOracleKeeper_ : FauxOracleKeeper
}.

(** What one provider's task sees at its [select]: the fetch goroutine is
    done (with the prices and candles it got), the provider reported an error,
    or the timeout fired. Providers, the scheduler and the clock decide which;
    the handler takes the branch as an input. A task whose provider is absent
    from [h.providers] never reaches the [select] and is not modelled. *)
Inductive FetchOutcome : Type :=
| FetchDone (prices : gmap string TickerPrice)
            (candles : gmap string (list CandlePrice))
| FetchError (e : error)
| FetchTimeout.

(** Lines 164-169: merge every requested pair, and stop at the first pair for
    which neither a price nor a candle was found. *)
Fixpoint setPairs (agg : ProviderAggregator) (providerName : string)
    (prices : gmap string TickerPrice) (candles : gmap string (list CandlePrice))
    (currencyPairs : list CurrencyPair) : ProviderAggregator * option error :=
  match currencyPairs with
  | [] => (agg, None)
  | currencyPair :: rest =>
      let '(agg', success) :=
        SetProviderTickerPricesAndCandles agg providerName prices candles
          currencyPair in
      if success then setPairs agg' providerName prices candles rest
      else (agg', Some ErrNoExchangeRates)
  end.

(** Lines 126-172: one provider's task. *)
Definition providerTask (agg : ProviderAggregator) (providerName : string)
    (currencyPairs : list CurrencyPair) (o : FetchOutcome)
    : ProviderAggregator * option error :=
  match o with
  | FetchDone prices candles => setPairs agg providerName prices candles currencyPairs
  | FetchError e => (agg, Some e)
  | FetchTimeout => (agg, Some (ErrProviderTimedOut providerName))
  end.

(** Lines 114-179: all tasks, joined by [g.Wait]. The tasks run concurrently,
    each under the aggregator's lock and each on the sub-maps of its own
    provider name, so running them one after the other gives the aggregator
    they leave. The errors are logged and dropped. *)
Definition fetchAll (providerPairs : gmap string (list CurrencyPair))
    (fetch : string → FetchOutcome) : ProviderAggregator :=
  foldl
    (λ agg '(providerName, currencyPairs),
       (providerTask agg providerName currencyPairs (fetch providerName)).1)
    NewProviderAggregator (map_to_list providerPairs).

(** Lines 118-122: the base of every pair of every provider. *)
Definition requiredRates (providerPairs : gmap string (list CurrencyPair))
    : gset string :=
  list_to_set (Base <$> mjoin ((map_to_list providerPairs).*2)).

(** [computeOraclePrices]: the implementation is omitted in the source; the
    named results are returned as they are, a nil map and a nil error. *)
Definition computeOraclePrices (h : VoteExtHandler) (providerAgg : ProviderAggregator)
    : gmap string sdk.Dec * option error :=
  (∅, None).

(** [verifyPrices]: the implementation is omitted in the source. *)
Definition verifyPrices (h : VoteExtHandler) (prices : gmap string sdk.Dec)
    : option error :=
  None.

(** Lines 105-106: the handler records the height and the time of the call. *)
Definition startExtendVote (h : VoteExtHandler) (now : Z)
    (req : RequestExtendVote) : VoteExtHandler :=
  {| currentBlock := ev_Height req;
     lastPriceSyncTS := now;
     providerTimeout := providerTimeout h;
     providerPairs := providerPairs h;
     computedPrices := computedPrices h;
     FauxOracleKeeper_ := FauxOracleKeeper_ h |}.

(** Line 216: [h.computedPrices[req.Height] = computedPrices]. *)
Definition cachePrices (h : VoteExtHandler) (height : Z)
    (prices : gmap string sdk.Dec) : VoteExtHandler :=
  {| currentBlock := currentBlock h;
     lastPriceSyncTS := lastPriceSyncTS h;
     providerTimeout := providerTimeout h;
     providerPairs := providerPairs h;
     computedPrices := <[height := prices]> (computedPrices h);
     FauxOracleKeeper_ := FauxOracleKeeper_ h |}.

Section VoteExtHandlers.

Context `{!JSON}.

(** [ExtendVoteHandler], with the price computation it calls as a
    parameter; [now] is the reading of [time.Now()], [fetch] the branch
    every provider task takes. The handler's state after the call comes
    first, the response or error second. The loop over [requiredRates]
    visits the bases in an unspecified order and returns at the first one
    without a price. *)
Definition ExtendVoteHandler_with
    (compute : VoteExtHandler → ProviderAggregator →
               gmap string sdk.Dec * option error)
    (h : VoteExtHandler) (now : Z) (fetch : string → FetchOutcome)
    (req : RequestExtendVote) : VoteExtHandler * outcome ResponseExtendVote :=
  let h := startExtendVote h now req in
  let requiredRates := requiredRates (providerPairs h) in
  let providerAgg := fetchAll (providerPairs h) fetch in
  match compute h providerAgg with
  | (_, Some err) => (h, Err err)
  | (computedPrices', None) =>
      match list_find (λ base, computedPrices' !! base = None)
              (elements requiredRates) with
      | Some (_, base) => (h, Err (ErrFindPrice base))
      | None =>
          let voteExt :=
            {| Height := ev_Height req; Prices := computedPrices' |} in
          match Marshal_OracleVoteExtension voteExt with
          | Err err => (h, Err (ErrMarshalVoteExt err))
          | Panic p => (h, Panic p)
          | Ok bz =>
              (cachePrices h (ev_Height req) computedPrices',
               Ok {| ev_VoteExtension := bz |})
          end
      end
  end.

(** The handler of the source: the price computation is its own
    [computeOraclePrices]. *)
Definition ExtendVoteHandler : VoteExtHandler → Z → (string → FetchOutcome) →
    RequestExtendVote → VoteExtHandler * outcome ResponseExtendVote :=
  ExtendVoteHandler_with computeOraclePrices.

Definition VerifyVoteExtensionHandler (h : VoteExtHandler)
    (req : RequestVerifyVoteExtension) : outcome ResponseVerifyVoteExtension :=
  match Unmarshal_OracleVoteExtension (vv_VoteExtension req) with
  | Err err => Err (ErrUnmarshalVoteExt err)
  | Panic p => Panic p
  | Ok voteExt =>
      if decide (Height voteExt ≠ vv_Height req) then
        Err (ErrHeightMismatch (vv_Height req) (Height voteExt))
      else
        match verifyPrices h (Prices voteExt) with
        | Some err => Err (ErrVerifyPrices (vv_ValidatorAddress req) err)
        | None => Ok {| vv_Status := ResponseVerifyVoteExtension_ACCEPT |}
        end
  end.

End VoteExtHandlers.

(** ** The reference wire format *)

(** Modelled from the spec: the attestation codec is [encoding/json] with
    [sdk.Dec]'s JSON methods, library code outside the repository. Section 6
    of the specification gives the wire format: the attestation is the JSON
    object [{Height: integer, Prices: {symbol: decimal-as-string, ...}}], the
    injected record the JSON object of the price map and the host's
    commit-info. [Marshal] writes the compact text with sorted keys, decimals
    with 18 fractional digits; [Unmarshal] reads that text, not every JSON
    text the library would read. An empty price map is written [{}]; for a
    nil map the library writes [null], which is read as the empty map. *)
Module GoJSON.

Local Open Scope char_scope.
Local Open Scope Z_scope.

Definition dquote : ascii := "034".
Definition backslash : ascii := "\".

(** *** Numbers *)

Definition digit (n : Z) : ascii := ascii_of_N (Z.to_N (48 + n)).

Definition is_digit (c : ascii) : bool :=
  ((48 <=? N_of_ascii c) && (N_of_ascii c <=? 57))%N.

Definition digit_val (c : ascii) : Z := Z.of_N (N_of_ascii c) - 48.

(** The decimal digits of [n], most significant first; [fuel] bounds the
    number of digits. *)
Fixpoint print_nat_fuel (fuel : nat) (n : Z) : list ascii :=
  match fuel with
  | O => []
  | S fuel' =>
      if n <? 10 then [digit n]
      else print_nat_fuel fuel' (n / 10) ++ [digit (n mod 10)]
  end.

Definition print_nat (n : Z) : list ascii :=
  print_nat_fuel (S (Z.to_nat (Z.log2 n))) n.

Definition print_int (z : Z) : list ascii :=
  if z <? 0 then "-" :: print_nat (- z) else print_nat z.

(** Exactly [n] digits: [r] modulo [10^n], padded with zeros. *)
Fixpoint print_fixed (n : nat) (r : Z) : list ascii :=
  match n with
  | O => []
  | S n' => print_fixed n' (r / 10) ++ [digit (r mod 10)]
  end.

Definition horner (ds : list ascii) : Z :=
  fold_left (λ acc c, 10 * acc + digit_val c) ds 0.

Fixpoint span_digits (s : list ascii) : list ascii * list ascii :=
  match s with
  | c :: s' =>
      if is_digit c then
        let '(ds, rest) := span_digits s' in (c :: ds, rest)
      else ([], s)
  | [] => ([], [])
  end.

Definition parse_nat (s : list ascii) : option (Z * list ascii) :=
  match span_digits s with
  | ([], _) => None
  | (ds, rest) => Some (horner ds, rest)
  end.

Definition parse_int (s : list ascii) : option (Z * list ascii) :=
  match s with
  | "-" :: s' => '(n, rest) ← parse_nat s'; Some (- n, rest)
  | _ => parse_nat s
  end.

(** *** Decimals: [LegacyDec.String] and [LegacyNewDecFromStr] *)

Definition print_dec (d : sdk.Dec) : list ascii :=
  let a := Z.abs d in
  (if d <? 0 then ["-"] else []) ++
  print_nat (a / 10 ^ sdk.Precision) ++
  "." :: print_fixed (Z.to_nat sdk.Precision) (a mod 10 ^ sdk.Precision).

(** The digits after the point: at least one, at most 18, read as if padded
    with zeros to 18. *)
Definition parse_fraction (s : list ascii) : option (Z * list ascii) :=
  match s with
  | "." :: s' =>
      let '(ds, rest) := span_digits s' in
      let lenDecs := Z.of_nat (length ds) in
      if decide (1 ≤ lenDecs ≤ sdk.Precision)
      then Some (horner ds * 10 ^ (sdk.Precision - lenDecs), rest)
      else None
  | _ => Some (0, s)
  end.

Definition parse_unsigned_dec (s : list ascii) : option (sdk.Dec * list ascii) :=
  '(i, s1) ← parse_nat s;
  '(f, s2) ← parse_fraction s1;
  Some (i * 10 ^ sdk.Precision + f, s2).

Definition parse_dec (s : list ascii) : option (sdk.Dec * list ascii) :=
  match s with
  | "-" :: s' => '(a, rest) ← parse_unsigned_dec s'; Some (- a, rest)
  | _ => parse_unsigned_dec s
  end.

(** *** Strings *)

Definition hexdigit (n : N) : ascii :=
  (if n <? 10 then ascii_of_N (48 + n) else ascii_of_N (87 + n))%N.

Definition hexval (c : ascii) : option N :=
  let n := N_of_ascii c in
  (if (48 <=? n) && (n <=? 57) then Some (n - 48)
   else if (97 <=? n) && (n <=? 102) then Some (n - 87)
   else if (65 <=? n) && (n <=? 70) then Some (n - 55)
   else None)%N.

(** The text of one character inside a JSON string: the quote, the
    backslash and the control characters are escaped, and so are the three
    characters [encoding/json] escapes for HTML. *)
Definition escape (c : ascii) : list ascii :=
  let n := N_of_ascii c in
  if Ascii.eqb c dquote then [backslash; dquote]
  else if Ascii.eqb c backslash then [backslash; backslash]
  else if (n =? 10)%N then [backslash; "n"]
  else if (n =? 13)%N then [backslash; "r"]
  else if (n =? 9)%N then [backslash; "t"]
  else if ((n <? 32) || (n =? 60) || (n =? 62) || (n =? 38))%N
  then [backslash; "u"; "0"; "0"; hexdigit (n / 16); hexdigit (n mod 16)]
  else [c].

Definition unescape (c : ascii) : option ascii :=
  if Ascii.eqb c dquote then Some dquote
  else if Ascii.eqb c backslash then Some backslash
  else if Ascii.eqb c "/" then Some "/"
  else if Ascii.eqb c "b" then Some "008"
  else if Ascii.eqb c "f" then Some "012"
  else if Ascii.eqb c "n" then Some "010"
  else if Ascii.eqb c "r" then Some "013"
  else if Ascii.eqb c "t" then Some "009"
  else None.

(** The characters up to the closing quote. Of the [\uXXXX] escapes, those
    of one 7-bit character are read. *)
Fixpoint parse_chars (s : list ascii) : option (list ascii * list ascii) :=
  match s with
  | [] => None
  | c :: s1 =>
      if Ascii.eqb c dquote then Some ([], s1)
      else if Ascii.eqb c backslash then
        match s1 with
        | [] => None
        | e :: s2 =>
            if Ascii.eqb e "u" then
              match s2 with
              | "0" :: "0" :: h1 :: h0 :: s3 =>
                  a ← hexval h1;
                  b ← hexval h0;
                  if (a <? 8)%N then
                    '(cs, rest) ← parse_chars s3;
                    Some (ascii_of_N (16 * a + b) :: cs, rest)
                  else None
              | _ => None
              end
            else
              u ← unescape e;
              '(cs, rest) ← parse_chars s2;
              Some (u :: cs, rest)
        end
      else
        '(cs, rest) ← parse_chars s1;
        Some (c :: cs, rest)
  end.

Definition print_string (k : string) : list ascii :=
  dquote :: flat_map escape (list_ascii_of_string k) ++ [dquote].

Definition parse_string (s : list ascii) : option (string * list ascii) :=
  match s with
  | c :: s' =>
      if Ascii.eqb c dquote then
        '(cs, rest) ← parse_chars s';
        Some (string_of_list_ascii cs, rest)
      else None
  | [] => None
  end.

(** [expect lit s]: [s] without its prefix [lit]. *)
Fixpoint expect (lit s : list ascii) : option (list ascii) :=
  match lit, s with
  | [], _ => Some s
  | l :: lit', c :: s' => if Ascii.eqb l c then expect lit' s' else None
  | _ :: _, [] => None
  end.

(** *** The price map *)

Definition key_le (e1 e2 : string * sdk.Dec) : Prop :=
  String.leb e1.1 e2.1 = true.

#[export] Instance key_le_dec e1 e2 : Decision (key_le e1 e2).
Proof. unfold key_le. apply _. Defined.

Definition print_entry (e : string * sdk.Dec) : list ascii :=
  print_string e.1 ++ ":" :: dquote :: print_dec e.2 ++ [dquote].

Fixpoint print_entries (l : list (string * sdk.Dec)) : list ascii :=
  match l with
  | [] => []
  | e :: l' =>
      print_entry e ++
      match l' with
      | [] => []
      | _ :: _ => "," :: print_entries l'
      end
  end.

Definition print_prices (m : gmap string sdk.Dec) : list ascii :=
  "{" :: print_entries (merge_sort key_le (map_to_list m)) ++ ["}"].

Definition parse_entry (s : list ascii)
    : option ((string * sdk.Dec) * list ascii) :=
  '(k, s1) ← parse_string s;
  s2 ← expect [":"; dquote] s1;
  '(d, s3) ← parse_dec s2;
  s4 ← expect [dquote] s3;
  Some ((k, d), s4).

(** The entries after the first, up to the closing brace. *)
Fixpoint parse_entries (fuel : nat) (s : list ascii)
    : option (list (string * sdk.Dec) * list ascii) :=
  match fuel with
  | O => None
  | S fuel' =>
      '(e, s1) ← parse_entry s;
      match s1 with
      | "," :: s2 =>
          '(l, rest) ← parse_entries fuel' s2;
          Some (e :: l, rest)
      | "}" :: s2 => Some ([e], s2)
      | _ => None
      end
  end.

(** Of two entries with one key the later one stays, as in Go. *)
Definition parse_prices (s : list ascii)
    : option (gmap string sdk.Dec * list ascii) :=
  match s with
  | "n" :: "u" :: "l" :: "l" :: rest => Some (∅, rest)
  | "{" :: "}" :: rest => Some (∅, rest)
  | "{" :: s1 =>
      '(l, rest) ← parse_entries (length s1) s1;
      Some (list_to_map (reverse l), rest)
  | _ => None
  end.

(** *** The attestation *)

(** [{"Height":] and [,"Prices":], the text around the two fields. *)
Definition open_Height : list ascii := "{" :: print_string "Height" ++ [":"].
Definition comma_Prices : list ascii := "," :: print_string "Prices" ++ [":"].

Definition print_vote_ext (v : OracleVoteExtension) : list ascii :=
  open_Height ++ print_int (Height v) ++
  comma_Prices ++ print_prices (Prices v) ++ ["}"].

Definition parse_vote_ext (s : list ascii)
    : option (OracleVoteExtension * list ascii) :=
  s1 ← expect open_Height s;
  '(height, s2) ← parse_int s1;
  if decide (is_int64 height) then
    s3 ← expect comma_Prices s2;
    '(prices, s4) ← parse_prices s3;
    s5 ← expect ["}"] s4;
    Some ({| Height := height; Prices := prices |}, s5)
  else None.

(** *** The injected record. The byte strings of the host's commit-info
    are written as JSON strings. *)

Definition print_vote (v : ExtendedVoteInfo) : list ascii :=
  "{" :: print_string "validator" ++ ":" ::
    "{" :: print_string "address" ++ ":" ::
           print_string (Address (vote_Validator v)) ++
    "," :: print_string "power" ++ ":" ::
           print_int (Power (vote_Validator v)) ++
    "}" ::
  "," :: print_string "vote_extension" ++ ":" ::
         print_string (VoteExtension v) ++
  ["}"].

Fixpoint print_votes (l : list ExtendedVoteInfo) : list ascii :=
  match l with
  | [] => []
  | v :: l' =>
      print_vote v ++
      match l' with
      | [] => []
      | _ :: _ => "," :: print_votes l'
      end
  end.

Definition print_commit_info (ci : ExtendedCommitInfo) : list ascii :=
  "{" :: print_string "round" ++ ":" :: print_int (Round ci) ++
  "," :: print_string "votes" ++ ":" :: "[" :: print_votes (Votes ci) ++
  ["]"; "}"].

Definition print_injected (r : StakeWeightedPrices) : list ascii :=
  "{" :: print_string "StakeWeightedPrices" ++ ":" ::
         print_prices (swp_StakeWeightedPrices r) ++
  "," :: print_string "ExtendedCommitInfo" ++ ":" ::
         print_commit_info (swp_ExtendedCommitInfo r) ++
  ["}"].

Definition parse_vote (s : list ascii) : option (ExtendedVoteInfo * list ascii) :=
  s1 ← expect ("{" :: print_string "validator" ++ ":" ::
               "{" :: print_string "address" ++ [":"]) s;
  '(address, s2) ← parse_string s1;
  s3 ← expect ("," :: print_string "power" ++ [":"]) s2;
  '(power, s4) ← parse_int s3;
  if decide (is_int64 power) then
    s5 ← expect ("}" :: "," :: print_string "vote_extension" ++ [":"]) s4;
    '(ext, s6) ← parse_string s5;
    s7 ← expect ["}"] s6;
    Some ({| vote_Validator := {| Address := address; Power := power |};
             VoteExtension := ext |}, s7)
  else None.

Fixpoint parse_votes (fuel : nat) (s : list ascii)
    : option (list ExtendedVoteInfo * list ascii) :=
  match fuel with
  | O => None
  | S fuel' =>
      '(v, s1) ← parse_vote s;
      match s1 with
      | "," :: s2 =>
          '(l, rest) ← parse_votes fuel' s2;
          Some (v :: l, rest)
      | "]" :: s2 => Some ([v], s2)
      | _ => None
      end
  end.

Definition parse_commit_info (s : list ascii)
    : option (ExtendedCommitInfo * list ascii) :=
  s1 ← expect ("{" :: print_string "round" ++ [":"]) s;
  '(round, s2) ← parse_int s1;
  s3 ← expect ("," :: print_string "votes" ++ [":"; "["]) s2;
  '(votes, s4) ←
    match s3 with
    | "]" :: rest => Some ([], rest)
    | _ => parse_votes (length s3) s3
    end;
  s5 ← expect ["}"] s4;
  Some ({| Round := round; Votes := votes |}, s5).

Definition parse_injected (s : list ascii)
    : option (StakeWeightedPrices * list ascii) :=
  s1 ← expect ("{" :: print_string "StakeWeightedPrices" ++ [":"]) s;
  '(prices, s2) ← parse_prices s1;
  s3 ← expect ("," :: print_string "ExtendedCommitInfo" ++ [":"]) s2;
  '(ci, s4) ← parse_commit_info s3;
  s5 ← expect ["}"] s4;
  Some ({| swp_StakeWeightedPrices := prices; swp_ExtendedCommitInfo := ci |},
        s5).

(** *** [json.Marshal] and [json.Unmarshal] at the two record types *)

Definition complete {A} (r : option (A * list ascii)) : outcome A :=
  match r with
  | Some (a, []) => Ok a
  | _ => Err (ErrJSON "invalid JSON text")
  end.

(** Modelled from the spec: [json.Marshal] of an attestation; it has no
    error case. *)
Definition Marshal_vote_ext (v : OracleVoteExtension) : outcome string :=
  Ok (string_of_list_ascii (print_vote_ext v)).

(** Modelled from the spec: [json.Unmarshal] into an attestation. *)
Definition Unmarshal_vote_ext (bz : string) : outcome OracleVoteExtension :=
  complete (parse_vote_ext (list_ascii_of_string bz)).

(** Modelled from the spec: [json.Marshal] of an injected record. *)
Definition Marshal_injected (r : StakeWeightedPrices) : outcome string :=
  Ok (string_of_list_ascii (print_injected r)).

(** Modelled from the spec: [json.Unmarshal] into an injected record. *)
Definition Unmarshal_injected (bz : string) : outcome StakeWeightedPrices :=
  complete (parse_injected (list_ascii_of_string bz)).

(** A text that does not go on with a digit: where a number can end. *)
Definition no_digit_ahead (s : list ascii) : Prop :=
  match s with
  | [] => True
  | c :: _ => is_digit c = false
  end.

(** Modelled from the spec: the four calls, on the reference wire format. *)
Definition codec : JSON :=
  {| Marshal_OracleVoteExtension := Marshal_vote_ext;
     Unmarshal_OracleVoteExtension := Unmarshal_vote_ext;
     Marshal_StakeWeightedPrices := Marshal_injected;
     Unmarshal_StakeWeightedPrices := Unmarshal_injected |}.

End GoJSON.

(** ** Reading the aggregator *)

(** The price, and the candles, the aggregator holds for a provider and a
    base. *)
Definition priceAt (p : ProviderAggregator) (providerName base : string)
    : option TickerPrice :=
  providerPrices p !! providerName ≫= (.!! base).

Definition candlesAt (p : ProviderAggregator) (providerName base : string)
    : option (list CandlePrice) :=
  providerCandles p !! providerName ≫= (.!! base).

(** ** Reading a commit-info *)

Section Decoding.

Context `{!JSON}.

(** Every vote of the list carries an extension that deserializes. *)
Definition allDecode (votes : list ExtendedVoteInfo) : Prop :=
  Forall (λ v, is_Ok (Unmarshal_OracleVoteExtension (VoteExtension v))) votes.

End Decoding.

(** The voting power accumulated over the votes, as [totalStake] holds it:
    an [int64] that starts at zero and is added to once per vote. *)
Definition accumulatedPower (votes : list ExtendedVoteInfo) : Z :=
  foldl (λ totalStake v, wrap64 (totalStake + Power (vote_Validator v))) 0 votes.

(** ** Reading the handlers' results *)

(** The verdict of [ProcessProposal], when it returns. *)
Definition proposalStatus
    (r : returns (ProposalHandler * ResponseProcessProposal))
    : option ProposalStatus :=
  match r with
  | Returned (_, resp) => Some (Status resp)
  | Panicked _ => None
  end.

(** In the specification's words, the supported bases: the bases of the
    pairs the keeper supports. *)
Definition supportedBases (k : FauxOracleKeeper) : list string :=
  Base <$> GetSupportedPairs k.

(** In the specification's words, all providers return valid non-empty
    responses covering every required base: every configured provider's
    task is done with a response that has a price and at least one candle
    for each of the provider's pairs. *)
Definition allProvidersRespond (providerPairs : gmap string (list CurrencyPair))
    (fetch : string → FetchOutcome) : Prop :=
  ∀ providerName currencyPairs,
    providerPairs !! providerName = Some currencyPairs →
    ∃ prices candles,
      fetch providerName = FetchDone prices candles
      ∧ ∀ cp, cp ∈ currencyPairs →
          is_Some (prices !! CurrencyPair_String cp)
          ∧ ∃ c cs, candles !! CurrencyPair_String cp = Some (c :: cs).

(** ** Example data: the scenarios of the specification *)

Module Examples.

Definition ATOMUSD : CurrencyPair := {| Base := "ATOM"; Quote := "USD" |}.

Definition keeper : FauxOracleKeeper := {| prices := ∅ |}.

Definition proposalHandler : ProposalHandler := {| fauxOracleKeeper := keeper |}.

(** A decimal given in hundredths: [cents 1020] is 10.20. *)
Definition cents (n : Z) : sdk.Dec := n * 10 ^ 16.

(** The bytes of the attestation of one price, in the reference format. *)
Definition attestation (height : Z) (base : string) (price : sdk.Dec) : string :=
  string_of_list_ascii
    (GoJSON.print_vote_ext {| Height := height; Prices := {[ base := price ]} |}).

Definition vote (address : string) (power : Z) (ext : string) : ExtendedVoteInfo :=
  {| vote_Validator := {| Address := address; Power := power |};
     VoteExtension := ext |}.

(** Three validators of power 10 attest 10.00, 10.20 and 9.80 for ATOM. *)
Definition vote1 : ExtendedVoteInfo :=
  vote "val1" 10 (attestation 100 "ATOM" (cents 1000)).
Definition vote2 : ExtendedVoteInfo :=
  vote "val2" 10 (attestation 100 "ATOM" (cents 1020)).
Definition vote3 : ExtendedVoteInfo :=
  vote "val3" 10 (attestation 100 "ATOM" (cents 980)).

Definition commitInfo : ExtendedCommitInfo :=
  {| Round := 0; Votes := [vote1; vote2; vote3] |}.

(** The same votes in another order. *)
Definition commitInfo_permuted : ExtendedCommitInfo :=
  {| Round := 0; Votes := [vote3; vote1; vote2] |}.

Definition noVotes : ExtendedCommitInfo := {| Round := 0; Votes := [] |}.

(** A commit-info whose second vote carries bytes that are no attestation. *)
Definition commitInfo_malformed : ExtendedCommitInfo :=
  {| Round := 0; Votes := [vote1; vote "val2" 10 "not an attestation"] |}.

(** The proposer claims 11.00 over votes whose stake-weighted mean is 10.00. *)
Definition claimed : gmap string sdk.Dec := {[ "ATOM" := cents 1100 ]}.

Definition injected (ci : ExtendedCommitInfo) : StakeWeightedPrices :=
  {| swp_StakeWeightedPrices := claimed; swp_ExtendedCommitInfo := ci |}.

Definition proposal (ci : ExtendedCommitInfo) : RequestProcessProposal :=
  {| Txs := [string_of_list_ascii (GoJSON.print_injected (injected ci))] |}.

(** A validator that fetches ATOM/USD from one provider and has computed
    10.00 for height 99. *)
Definition voteExtHandler : VoteExtHandler :=
  {| currentBlock := 99;
     lastPriceSyncTS := 0;
     providerTimeout := 1000;
     providerPairs := {[ "binance" := [ATOMUSD] ]};
     computedPrices := {[ 99 := {[ "ATOM" := cents 1000 ]} ]};
     FauxOracleKeeper_ := keeper |}.

(** A validator with no provider configured. *)
Definition voteExtHandler_noProviders : VoteExtHandler :=
  {| currentBlock := 99;
     lastPriceSyncTS := 0;
     providerTimeout := 1000;
     providerPairs := ∅;
     computedPrices := ∅;
     FauxOracleKeeper_ := keeper |}.

Definition ticker : TickerPrice := {| Price := cents 1000; Volume := cents 2400000 |}.

Definition candle : CandlePrice :=
  {| CandlePrice_Price := cents 1000;
     CandlePrice_Volume := cents 2400000;
     TimeStamp := 1700000000 |}.

(** Every provider answers with a price and a candle for ATOM/USD. *)
Definition fetch_ok (providerName : string) : FetchOutcome :=
  FetchDone {[ "ATOMUSD" := ticker ]} {[ "ATOMUSD" := [candle] ]}.

(** Every provider times out. *)
Definition fetch_timeout (providerName : string) : FetchOutcome := FetchTimeout.

(** A price computation to try the handler with: the last trade price the
    provider binance reported for each base. *)
Definition lastTradePrices (h : VoteExtHandler) (providerAgg : ProviderAggregator)
    : gmap string sdk.Dec * option error :=
  (Price <$> default ∅ (providerPrices providerAgg !! "binance"), None).

(** An attestation of height 100 for a base that is not supported. *)
Definition verifyRequest_BTC : RequestVerifyVoteExtension :=
  {| vv_Height := 100;
     vv_VoteExtension := attestation 100 "BTC" (cents 2500000);
     vv_ValidatorAddress := "val1" |}.

(** An attestation of height 101 received for height 100. *)
Definition verifyRequest_101 : RequestVerifyVoteExtension :=
  {| vv_Height := 100;
     vv_VoteExtension := attestation 101 "ATOM" (cents 1000);
     vv_ValidatorAddress := "val1" |}.

End Examples.

(** ** Proof steps *)

(** One step of a parser written with the option monad: the bind of a
    result that is there. *)
Ltac step_bind := cbn [mbind option_bind].

(** ** Reading the votes *)

(** The exact sum of the voting powers of the votes. *)
Definition totalPower (votes : list ExtendedVoteInfo) : Z :=
  foldr (λ v acc, Power (vote_Validator v) + acc) 0 votes.

Section Reading.

Context `{!JSON}.

(** The price a vote attests for a base, as the aggregation counts it: zero
    where the extension has no price for the base. *)
Definition votePrice (base : string) (v : ExtendedVoteInfo) : sdk.Dec :=
  match Unmarshal_OracleVoteExtension (VoteExtension v) with
  | Ok voteExt => default 0 (Prices voteExt !! base)
  | _ => 0
  end.

(** The sum over the votes of the attested price times the voting power. *)
Definition weightedTotal (base : string) (votes : list ExtendedVoteInfo) : sdk.Dec :=
  foldr (λ v acc, votePrice base v * Power (vote_Validator v) + acc) 0 votes.

End Reading.

(** ** An earlier version of the proposal handler *)

(** src/unnamed/part_003: proposal.go before
    [computeStakeWeightedOraclePrices] was split off. PrepareProposal holds
    the three loops itself, returns the empty response where a vote does not
    decode, and injects the price map with the list of votes. The logger is
    left out. *)
Module Earlier.

Record StakeWeightedPrices : Type := {
  StakeWeightedPrices_ : gmap string sdk.Dec;
  VoteExtensions : list ExtendedVoteInfo
}.

Record ProposalHandler : Type := {
  FauxOracleKeeper : keepers.FauxOracleKeeper
}.

Section Handler.

Context `{!JSON}.

(** [json.Marshal] at the injected record of this version. *)
Variable Marshal_StakeWeightedPrices : StakeWeightedPrices → outcome string.

(** Lines 30-92. The loop over the votes (lines 37-61) is the one of
    [votesLoop], with the empty response where that one returns the
    decoder's error; the dividing loop (lines 64-66) has no error to
    return. *)
Definition PrepareProposal (h : ProposalHandler) (req : RequestPrepareProposal)
    : returns ResponsePrepareProposal :=
  let requiredPairs := GetSupportedPairs (FauxOracleKeeper h) in
  match votesLoop (Votes (LocalLastCommit req)) (initPrices requiredPairs) 0 with
  | Err _ => Returned {| pp_Txs := [] |}
  | Panic p => Panicked p
  | Ok (stakeWeightedPrices, totalStake) =>
      match divideByStake totalStake stakeWeightedPrices with
      | Panic p => Panicked p
      | Err _ => Returned {| pp_Txs := [] |}
      | Ok stakeWeightedPrices =>
          let injectedTx :=
            {| StakeWeightedPrices_ := stakeWeightedPrices;
               VoteExtensions := Votes (LocalLastCommit req) |} in
          match Marshal_StakeWeightedPrices injectedTx with
          | Err _ => Returned {| pp_Txs := [] |}
          | Panic p => Panicked p
          | Ok bz => Returned {| pp_Txs := [] ++ [bz] |}
          end
      end
  end.

End Handler.

End Earlier.

(** ** Running the provider tasks in a given order *)

(** The tasks of the providers of a list, run one after the other on an
    aggregator: the loop of [fetchAll], over any list. *)
Definition runTasks (fetch : string → FetchOutcome)
    (l : list (string * list CurrencyPair)) (agg : ProviderAggregator)
    : ProviderAggregator :=
  foldl
    (λ agg '(providerName, currencyPairs),
       (providerTask agg providerName currencyPairs (fetch providerName)).1)
    agg l.

(** ** Schedules of aggregator calls *)

(** One call of [SetProviderTickerPricesAndCandles], by its arguments. *)
Record SetCall : Type := {
  call_providerName : string;
  call_prices : gmap string TickerPrice;
  call_candles : gmap string (list CandlePrice);
  call_pair : CurrencyPair
}.

(** The calls of a list made one after the other, each under the lock. *)
Definition runCalls (l : list SetCall) (agg : ProviderAggregator)
    : ProviderAggregator :=
  foldl
    (λ agg c,
       (SetProviderTickerPricesAndCandles agg (call_providerName c)
          (call_prices c) (call_candles c) (call_pair c)).1)
    agg l.

(** The calls the merging loop of a task makes (lines 164-169): one for
    every pair, up to and with the first pair for which the call returns
    false. What a call returns is decided by the response alone. *)
Fixpoint pairCalls (providerName : string)
    (prices : gmap string TickerPrice) (candles : gmap string (list CandlePrice))
    (currencyPairs : list CurrencyPair) : list SetCall :=
  match currencyPairs with
  | [] => []
  | currencyPair :: rest =>
      {| call_providerName := providerName;
         call_prices := prices;
         call_candles := candles;
         call_pair := currencyPair |}
      :: if (SetProviderTickerPricesAndCandles NewProviderAggregator
               providerName prices candles currencyPair).2
         then pairCalls providerName prices candles rest
         else []
  end.

(** The calls of one provider's task: none when the fetch ended in an error
    or in the timeout. *)
Definition taskCalls (providerName : string)
    (currencyPairs : list CurrencyPair) (o : FetchOutcome) : list SetCall :=
  match o with
  | FetchDone prices candles => pairCalls providerName prices candles currencyPairs
  | _ => []
  end.

(** The calls of a schedule that one provider's task made, in their order. *)
Definition callsOf (providerName : string) (l : list SetCall) : list SetCall :=
  filter (λ c, call_providerName c = providerName) l.

(** ** Example data: further scenarios *)

Module MoreExamples.

Import Examples.

(** Two providers, both asked for ATOM/USD. *)
Definition twoProviders : gmap string (list CurrencyPair) :=
  {[ "binance" := [ATOMUSD]; "kraken" := [ATOMUSD] ]}.

(** binance answers with a price, every other provider times out. *)
Definition fetch_binance (providerName : string) : FetchOutcome :=
  if decide (providerName = "binance")
  then FetchDone {[ "ATOMUSD" := ticker ]} ∅
  else FetchTimeout.

(** The bytes of an attestation with any price map. *)
Definition attestationOf (height : Z) (prices : gmap string sdk.Dec) : string :=
  string_of_list_ascii
    (GoJSON.print_vote_ext {| Height := height; Prices := prices |}).

(** The powers and the ATOM prices of [commitInfo], in another round, from
    other addresses, in extensions that declare other heights and carry a
    price for BTC as well. *)
Definition commitInfo_other : ExtendedCommitInfo :=
  {| Round := 3;
     Votes :=
       [vote "valA" 10
          (attestationOf 7 {[ "ATOM" := cents 1000; "BTC" := cents 2500000 ]});
        vote "valB" 10
          (attestationOf 8 {[ "ATOM" := cents 1020; "BTC" := cents 2600000 ]});
        vote "valC" 10
          (attestationOf 9 {[ "ATOM" := cents 980 ]})] |}.

(** The record an honest proposer injects for [commitInfo]. *)
Definition injected_honest : StakeWeightedPrices :=
  {| swp_StakeWeightedPrices := {[ "ATOM" := cents 1000 ]};
     swp_ExtendedCommitInfo := commitInfo |}.

Definition injected_honest_tx : string :=
  string_of_list_ascii (GoJSON.print_injected injected_honest).

Definition BTCUSD : CurrencyPair := {| Base := "BTC"; Quote := "USD" |}.

(** binance is asked for two pairs, kraken for one. *)
Definition threePairs : gmap string (list CurrencyPair) :=
  {[ "binance" := [ATOMUSD; BTCUSD]; "kraken" := [ATOMUSD] ]}.

(** Every provider answers with a price for both pairs. *)
Definition fetch_both (providerName : string) : FetchOutcome :=
  FetchDone {[ "ATOMUSD" := ticker; "BTCUSD" := ticker ]} ∅.

Definition call (providerName : string) (currencyPair : CurrencyPair) : SetCall :=
  {| call_providerName := providerName;
     call_prices := {[ "ATOMUSD" := ticker; "BTCUSD" := ticker ]};
     call_candles := ∅;
     call_pair := currencyPair |}.

(** The call of kraken falls between the two calls of binance. *)
Definition schedule : list SetCall :=
  [call "binance" ATOMUSD; call "kraken" ATOMUSD; call "binance" BTCUSD].

(** The call of kraken comes first. *)
Definition schedule' : list SetCall :=
  [call "kraken" ATOMUSD; call "binance" ATOMUSD; call "binance" BTCUSD].

End MoreExamples.

(** * Properties *)

(** ** The provider aggregator *)

Section Aggregator.

Context {V : Type}.
Implicit Types m : gmap string (gmap string V).

Lemma ensureProvider_lookup m P Q :
  ensureProvider P m !! Q =
  if decide (P = Q) then Some (default ∅ (m !! P)) else m !! Q.
Proof.
  unfold ensureProvider. case_decide as HPQ.
  - subst Q. destruct (m !! P) eqn:E; simpl; [done|]. by rewrite lookup_insert_eq.
  - destruct (m !! P) eqn:E; [done|]. by rewrite lookup_insert_ne.
Qed.

Lemma setEntry_lookup m P base v Q :
  setEntry P base v m !! Q =
  if decide (P = Q) then (λ sub, <[base := v]> sub) <$> m !! P else m !! Q.
Proof.
  unfold setEntry. case_decide as HPQ.
  - subst Q. destruct (m !! P) eqn:E; simpl; [|done]. by rewrite lookup_insert_eq.
  - destruct (m !! P) eqn:E; [|done]. by rewrite lookup_insert_ne.
Qed.

(** The provider's sub-map after the lazily-create step and the optional
    store. *)
Lemma store_lookup m P base (o : option V) Q :
  match o with
  | Some v => setEntry P base v (ensureProvider P m)
  | None => ensureProvider P m
  end !! Q =
  if decide (P = Q)
  then Some (match o with
             | Some v => <[base := v]> (default ∅ (m !! P))
             | None => default ∅ (m !! P)
             end)
  else m !! Q.
Proof.
  destruct o as [v|].
  - rewrite setEntry_lookup. case_decide.
    + rewrite ensureProvider_lookup. by rewrite decide_True.
    + rewrite ensureProvider_lookup. by rewrite decide_False.
  - apply ensureProvider_lookup.
Qed.

End Aggregator.

Lemma SetProviderTickerPricesAndCandles_eq p P prices candles pair :
  SetProviderTickerPricesAndCandles p P prices candles pair =
  ({| providerPrices :=
        match prices !! CurrencyPair_String pair with
        | Some v => setEntry P (Base pair) v (ensureProvider P (providerPrices p))
        | None => ensureProvider P (providerPrices p)
        end;
      providerCandles :=
        match candles !! CurrencyPair_String pair with
        | Some v => setEntry P (Base pair) v (ensureProvider P (providerCandles p))
        | None => ensureProvider P (providerCandles p)
        end |},
   bool_decide (is_Some (prices !! CurrencyPair_String pair)) ||
   bool_decide (is_Some (candles !! CurrencyPair_String pair))).
Proof.
  unfold SetProviderTickerPricesAndCandles.
  destruct (prices !! _), (candles !! _); reflexivity.
Qed.

(** C8. A call stores the price under provider -> base exactly when the
    pair's string key is in the price map (otherwise the entry keeps what it
    had), the same for the candles; it touches no other entry, and it returns
    true if and only if one of the two keys was present. *)
Theorem SetProviderTickerPricesAndCandles_stores p providerName prices candles pair :
  let key := CurrencyPair_String pair in
  let r := SetProviderTickerPricesAndCandles p providerName prices candles pair in
  priceAt r.1 providerName (Base pair) =
    match prices !! key with
    | Some tp => Some tp
    | None => priceAt p providerName (Base pair)
    end
  ∧ candlesAt r.1 providerName (Base pair) =
    match candles !! key with
    | Some cp => Some cp
    | None => candlesAt p providerName (Base pair)
    end
  ∧ (∀ Q b, (Q, b) ≠ (providerName, Base pair) →
       priceAt r.1 Q b = priceAt p Q b ∧ candlesAt r.1 Q b = candlesAt p Q b)
  ∧ (r.2 = true ↔ is_Some (prices !! key) ∨ is_Some (candles !! key)).
Proof.
  intros key r. subst r. rewrite SetProviderTickerPricesAndCandles_eq. simpl.
  fold key. unfold priceAt, candlesAt. simpl.
  repeat split.
  - rewrite store_lookup, decide_True by done. simpl.
    destruct (prices !! key); simpl.
    + by rewrite lookup_insert_eq.
    + destruct (providerPrices p !! providerName); simpl; [done|]. apply lookup_empty.
  - rewrite store_lookup, decide_True by done. simpl.
    destruct (candles !! key); simpl.
    + by rewrite lookup_insert_eq.
    + destruct (providerCandles p !! providerName); simpl; [done|]. apply lookup_empty.
  - rewrite store_lookup. case_decide as HQ; [subst Q|done]. simpl.
    assert (b ≠ Base pair) by congruence.
    destruct (prices !! key); simpl.
    + rewrite lookup_insert_ne by done.
      destruct (providerPrices p !! providerName); simpl; [done|]. apply lookup_empty.
    + destruct (providerPrices p !! providerName); simpl; [done|]. apply lookup_empty.
  - rewrite store_lookup. case_decide as HQ; [subst Q|done]. simpl.
    assert (b ≠ Base pair) by congruence.
    destruct (candles !! key); simpl.
    + rewrite lookup_insert_ne by done.
      destruct (providerCandles p !! providerName); simpl; [done|]. apply lookup_empty.
    + destruct (providerCandles p !! providerName); simpl; [done|]. apply lookup_empty.
  - intros Hor. apply orb_true_iff in Hor as [H|H]; apply bool_decide_eq_true in H; auto.
  - intros [H|H]; apply orb_true_iff; [left|right]; by apply bool_decide_eq_true.
Qed.

Lemma ensureProvider_insert {V} (m : gmap string (gmap string V)) P :
  ensureProvider P m = <[P := default ∅ (m !! P)]> m.
Proof.
  unfold ensureProvider. destruct (m !! P) eqn:E; simpl; [|done].
  by rewrite insert_id.
Qed.

(** C10. Every call, also one that returns false, leaves a sub-map for the
    provider in both aggregated maps and removes no provider; a call that
    returns false leaves exactly the old maps with the provider's sub-maps
    added (empty where the provider was new), so it changes the aggregator
    when the provider was not there before. *)
Theorem SetProviderTickerPricesAndCandles_keeps_provider
    p providerName prices candles pair :
  let r := SetProviderTickerPricesAndCandles p providerName prices candles pair in
  is_Some (providerPrices r.1 !! providerName)
  ∧ is_Some (providerCandles r.1 !! providerName)
  ∧ (∀ Q, is_Some (providerPrices p !! Q) → is_Some (providerPrices r.1 !! Q))
  ∧ (∀ Q, is_Some (providerCandles p !! Q) → is_Some (providerCandles r.1 !! Q))
  ∧ (r.2 = false →
       providerPrices r.1 =
         <[providerName := default ∅ (providerPrices p !! providerName)]>
           (providerPrices p)
       ∧ providerCandles r.1 =
         <[providerName := default ∅ (providerCandles p !! providerName)]>
           (providerCandles p)).
Proof.
  intros r. subst r. rewrite SetProviderTickerPricesAndCandles_eq. simpl.
  split_and!.
  - rewrite store_lookup, decide_True by done. eauto.
  - rewrite store_lookup, decide_True by done. eauto.
  - intros Q HQ. rewrite store_lookup. case_decide; eauto.
  - intros Q HQ. rewrite store_lookup. case_decide; eauto.
  - intros Hfalse. apply orb_false_iff in Hfalse as [Hp Hc].
    apply bool_decide_eq_false in Hp, Hc.
    destruct (prices !! CurrencyPair_String pair); [destruct Hp; eauto|].
    destruct (candles !! CurrencyPair_String pair); [destruct Hc; eauto|].
    by rewrite !ensureProvider_insert.
Qed.

(** A failed call on the fresh aggregator: it returns false and the
    aggregator is no longer the fresh one. *)
Lemma SetProviderTickerPricesAndCandles_keeps_provider_witness :
  let r := SetProviderTickerPricesAndCandles NewProviderAggregator "binance"
             ∅ ∅ {| Base := "ATOM"; Quote := "USD" |} in
  r.2 = false
  ∧ providerPrices r.1 = {[ "binance" := ∅ ]}
  ∧ providerCandles r.1 = {[ "binance" := ∅ ]}
  ∧ r.1 ≠ NewProviderAggregator.
Proof.
  intros r.
  destruct (SetProviderTickerPricesAndCandles_keeps_provider
              NewProviderAggregator "binance" ∅ ∅
              {| Base := "ATOM"; Quote := "USD" |}) as (_ & _ & _ & _ & H).
  assert (Hr : r.2 = false) by reflexivity.
  destruct (H Hr) as [Hp Hc].
  split_and!; [done | exact Hp | exact Hc |].
  intros Heq. fold r in Hp. rewrite Heq in Hp. simpl in Hp.
  apply (f_equal (λ m, m !! "binance")) in Hp.
  rewrite lookup_empty, lookup_insert_eq in Hp. discriminate.
Defined.

(** ** Stake-weighted aggregation *)

Lemma wrap64_add_l a b : wrap64 (wrap64 a + b) = wrap64 (a + b).
Proof.
  unfold wrap64. f_equal.
  replace ((a + 2 ^ 63) mod 2 ^ 64 - 2 ^ 63 + b + 2 ^ 63)
    with ((a + 2 ^ 63) mod 2 ^ 64 + b) by lia.
  rewrite Zplus_mod_idemp_l. f_equal. lia.
Qed.

Lemma wrap64_swap t a b :
  wrap64 (wrap64 (t + a) + b) = wrap64 (wrap64 (t + b) + a).
Proof. rewrite !wrap64_add_l. f_equal. lia. Qed.

Lemma wrap64_int64 z : is_int64 z → wrap64 z = z.
Proof.
  unfold is_int64, int64_min, int64_max, wrap64. intros Hz.
  rewrite Z.mod_small; lia.
Qed.

(** What one vote adds to the running total of a base. *)
Lemma addVotePrices_lookup power votePrices swp base :
  addVotePrices power votePrices swp !! base =
  match swp !! base with
  | Some cur =>
      Some match votePrices !! base with
           | Some price => sdk.Add cur (sdk.MulInt64 price power)
           | None => cur
           end
  | None => None
  end.
Proof.
  unfold addVotePrices. revert base.
  apply (map_fold_weak_ind (λ acc (vp : gmap string sdk.Dec), ∀ base,
    acc !! base =
    match swp !! base with
    | Some cur =>
        Some match vp !! base with
             | Some price => sdk.Add cur (sdk.MulInt64 price power)
             | None => cur
             end
    | None => None
    end)).
  - intros base. rewrite lookup_empty. by destruct (swp !! base).
  - intros i x vp r Hi IH base.
    assert (Hri : r !! i = swp !! i).
    { rewrite IH, Hi. by destruct (swp !! i). }
    destruct (decide (base = i)) as [->|Hne].
    + rewrite lookup_insert_eq. rewrite Hri.
      destruct (swp !! i) as [cur|] eqn:Hs.
      * by rewrite lookup_insert_eq.
      * by rewrite Hri.
    + rewrite lookup_insert_ne by done.
      destruct (r !! i) as [cur|]; [rewrite lookup_insert_ne by done|]; apply IH.
Qed.

Lemma addVotePrices_comm p1 vp1 p2 vp2 swp :
  addVotePrices p1 vp1 (addVotePrices p2 vp2 swp) =
  addVotePrices p2 vp2 (addVotePrices p1 vp1 swp).
Proof.
  apply map_eq. intros base. rewrite !addVotePrices_lookup.
  destruct (swp !! base) as [cur|]; [|done].
  unfold sdk.Add, sdk.MulInt64.
  destruct (vp1 !! base), (vp2 !! base); f_equal; lia.
Qed.

Lemma addVotePrices_empty_iff power vp swp :
  addVotePrices power vp swp = ∅ ↔ swp = ∅.
Proof.
  rewrite !map_empty. split; intros H base; specialize (H base);
    rewrite addVotePrices_lookup in *; by destruct (swp !! base).
Qed.

(** The dividing loop, started from any map [s] and run over any map [m]. *)
Lemma divide_fold_nonzero totalStake (s m : gmap string sdk.Dec) :
  totalStake ≠ 0 →
  map_fold
    (λ base price (acc : outcome (gmap string sdk.Dec)),
       match acc with
       | Ok m =>
           match sdk.QuoInt64 price totalStake with
           | Some q => Ok (<[base := q]> m)
           | None => Panic PanicDivisionByZero
           end
       | _ => acc
       end) (Ok s) m
  = Ok (((λ price, Z.quot price totalStake) <$> m) ∪ s).
Proof.
  intros Hne.
  apply (map_fold_weak_ind
    (λ (acc : outcome (gmap string sdk.Dec)) (mm : gmap string sdk.Dec),
       acc = Ok (((λ price, Z.quot price totalStake) <$> mm) ∪ s))).
  - by rewrite fmap_empty, (left_id_L ∅ (∪)).
  - intros i x m' r Hi ->. unfold sdk.QuoInt64.
    rewrite decide_False by done.
    by rewrite fmap_insert, insert_union_l.
Qed.

Lemma divide_fold_zero (s m : gmap string sdk.Dec) :
  map_fold
    (λ base price (acc : outcome (gmap string sdk.Dec)),
       match acc with
       | Ok m =>
           match sdk.QuoInt64 price 0 with
           | Some q => Ok (<[base := q]> m)
           | None => Panic PanicDivisionByZero
           end
       | _ => acc
       end) (Ok s) m
  = if decide (m = ∅) then Ok s else Panic PanicDivisionByZero.
Proof.
  pose (P := λ (acc : outcome (gmap string sdk.Dec)) (mm : gmap string sdk.Dec),
               acc = if decide (mm = ∅) then Ok s else Panic PanicDivisionByZero).
  apply (map_fold_weak_ind P); subst P; simpl.
  - by rewrite decide_True.
  - intros i x m' r Hi ->.
    rewrite (decide_False (P := <[i:=x]> m' = ∅)) by apply insert_non_empty.
    by case_decide.
Qed.

Lemma divideByStake_nonzero totalStake swp :
  totalStake ≠ 0 →
  divideByStake totalStake swp = Ok ((λ price, Z.quot price totalStake) <$> swp).
Proof.
  intros Hne. unfold divideByStake. rewrite divide_fold_nonzero by done.
  f_equal. apply map_eq. intros base.
  rewrite lookup_union, lookup_fmap. by destruct (swp !! base).
Qed.

Lemma divideByStake_zero swp :
  swp ≠ ∅ → divideByStake 0 swp = Panic PanicDivisionByZero.
Proof.
  intros Hne. unfold divideByStake. rewrite divide_fold_zero.
  by rewrite decide_False.
Qed.

Lemma initPrices_GetSupportedPairs k :
  initPrices (GetSupportedPairs k) = {[ "ATOM" := sdk.ZeroDec ]}.
Proof. reflexivity. Qed.

Section Aggregation.

Context `{!JSON}.

Lemma allDecode_cons v votes :
  allDecode (v :: votes) ↔
  is_Ok (Unmarshal_OracleVoteExtension (VoteExtension v)) ∧ allDecode votes.
Proof. unfold allDecode. by rewrite Forall_cons. Qed.

(** When every vote decodes the loop runs to its end: the total stake is the
    accumulated power, and the map of totals is empty only if it started
    empty. *)
Lemma votesLoop_allDecode votes : allDecode votes → ∀ swp totalStake,
  ∃ swp',
    votesLoop votes swp totalStake =
      Ok (swp',
          foldl (λ t v, wrap64 (t + Power (vote_Validator v))) totalStake votes)
    ∧ (swp' = ∅ ↔ swp = ∅).
Proof.
  induction votes as [|v votes IH]; intros Hall swp totalStake; simpl.
  - by exists swp.
  - apply allDecode_cons in Hall as [[voteExt Hv] Hall]. rewrite Hv.
    destruct (IH Hall
                (addVotePrices (Power (vote_Validator v)) (Prices voteExt) swp)
                (wrap64 (totalStake + Power (vote_Validator v))))
      as (swp' & Hloop & Hempty).
    exists swp'. split; [done|]. by rewrite Hempty, addVotePrices_empty_iff.
Qed.

(** The loop does not depend on the order of votes that all decode. *)
Lemma votesLoop_Permutation votes votes' :
  Permutation votes votes' → allDecode votes → ∀ swp totalStake,
  votesLoop votes swp totalStake = votesLoop votes' swp totalStake.
Proof.
  induction 1 as [|v l l' Hperm IH|v1 v2 l|l l' l'' Hp1 IH1 Hp2 IH2];
    intros Hall swp totalStake.
  - done.
  - apply allDecode_cons in Hall as [[voteExt Hv] Hall]. simpl. rewrite Hv.
    by apply IH.
  - apply allDecode_cons in Hall as [[e2 Hv2] Hall].
    apply allDecode_cons in Hall as [[e1 Hv1] Hall].
    simpl. rewrite Hv1, Hv2.
    by rewrite addVotePrices_comm, wrap64_swap.
  - rewrite IH1 by done. apply IH2.
    unfold allDecode in *. by rewrite <- Hp1.
Qed.

(** C1. When all votes decode and the accumulated voting power is zero (as
    with no votes), the function does not return an error: it goes on to
    divide the total of the supported base by the zero stake, and ends in
    the division's run-time panic. *)
Theorem computeStakeWeightedOraclePrices_zero_stake h ci :
  allDecode (Votes ci) →
  accumulatedPower (Votes ci) = 0 →
  computeStakeWeightedOraclePrices h ci = Panic PanicDivisionByZero.
Proof.
  intros Hall Hzero. unfold computeStakeWeightedOraclePrices.
  destruct (votesLoop_allDecode (Votes ci) Hall
              (initPrices (GetSupportedPairs (fauxOracleKeeper h))) 0)
    as (swp' & -> & Hempty).
  fold (accumulatedPower (Votes ci)). rewrite Hzero.
  apply divideByStake_zero. rewrite Hempty, initPrices_GetSupportedPairs.
  apply insert_non_empty.
Qed.

(** C6. Permuting votes that all decode does not change what the
    aggregation returns, be it the price map or the panic of a zero total
    stake. *)
Theorem computeStakeWeightedOraclePrices_Permutation h ci ci' :
  Permutation (Votes ci) (Votes ci') →
  allDecode (Votes ci) →
  computeStakeWeightedOraclePrices h ci = computeStakeWeightedOraclePrices h ci'.
Proof.
  intros Hperm Hall. unfold computeStakeWeightedOraclePrices.
  by rewrite (votesLoop_Permutation _ _ Hperm Hall).
Qed.

(** With a total stake other than zero the result is the map of the
    supported base to its total divided by the stake. *)
Lemma computeStakeWeightedOraclePrices_nonzero h ci :
  allDecode (Votes ci) →
  accumulatedPower (Votes ci) ≠ 0 →
  is_Ok (computeStakeWeightedOraclePrices h ci).
Proof.
  intros Hall Hne. unfold computeStakeWeightedOraclePrices.
  destruct (votesLoop_allDecode (Votes ci) Hall
              (initPrices (GetSupportedPairs (fauxOracleKeeper h))) 0)
    as (swp' & -> & Hempty).
  fold (accumulatedPower (Votes ci)).
  rewrite divideByStake_nonzero by done. by eexists.
Qed.

(** The first vote that does not decode ends the function with the
    decoder's error. *)
Lemma computeStakeWeightedOraclePrices_decode_error h ci
    (before : list ExtendedVoteInfo) v after e :
  Votes ci = (before ++ v :: after)%list →
  allDecode before →
  Unmarshal_OracleVoteExtension (VoteExtension v) = Err e →
  computeStakeWeightedOraclePrices h ci = Err e.
Proof.
  intros Hvotes Hall Hv. unfold computeStakeWeightedOraclePrices.
  rewrite Hvotes. clear Hvotes.
  generalize (initPrices (GetSupportedPairs (fauxOracleKeeper h))).
  generalize 0.
  induction before as [|b before IH]; intros t swp; simpl.
  - by rewrite Hv.
  - apply allDecode_cons in Hall as [[e' Hb] Hall]. rewrite Hb. by apply IH.
Qed.

End Aggregation.

(** ** The proposal handlers *)

Section Proposals.

Context `{!JSON}.


(** The verdict on a proposal with a first entry that decodes: the
    comparison of the two price maps never fails, so only the recomputation
    decides. *)
Lemma ProcessProposal_decoded h req tx0 rest injectedVoteExtTx :
  Txs req = tx0 :: rest →
  Unmarshal_StakeWeightedPrices tx0 = Ok injectedVoteExtTx →
  ProcessProposal h req =
  match computeStakeWeightedOraclePrices h
          (swp_ExtendedCommitInfo injectedVoteExtTx) with
  | Ok _ => Returned (h, {| Status := ResponseProcessProposal_ACCEPT |})
  | Err _ => Returned (h, {| Status := ResponseProcessProposal_REJECT |})
  | Panic p => Panicked p
  end.
Proof.
  intros Htxs Hdec. unfold ProcessProposal. rewrite Htxs, Hdec.
  by destruct (computeStakeWeightedOraclePrices _ _).
Qed.

(** C2, as the code has it. For a proposal whose first entry decodes,
    ProcessProposal rejects when the recomputation from the embedded
    commit-info returns an error and accepts whenever it returns a price map,
    whatever the map the proposer claimed. *)
Theorem ProcessProposal_verdict h req tx0 rest injectedVoteExtTx :
  Txs req = tx0 :: rest →
  Unmarshal_StakeWeightedPrices tx0 = Ok injectedVoteExtTx →
  let recomputed :=
    computeStakeWeightedOraclePrices h
      (swp_ExtendedCommitInfo injectedVoteExtTx) in
  (is_Err recomputed →
     proposalStatus (ProcessProposal h req) = Some ResponseProcessProposal_REJECT)
  ∧ (is_Ok recomputed →
     proposalStatus (ProcessProposal h req) = Some ResponseProcessProposal_ACCEPT).
Proof.
  intros Htxs Hdec recomputed.
  rewrite (ProcessProposal_decoded _ _ _ _ _ Htxs Hdec). fold recomputed.
  split; intros [x ->]; reflexivity.
Qed.


(** A proposal with no entries is accepted. *)
Lemma ProcessProposal_empty h req :
  Txs req = [] →
  ProcessProposal h req =
  Returned (h, {| Status := ResponseProcessProposal_ACCEPT |}).
Proof. unfold ProcessProposal. by intros ->. Qed.

End Proposals.

(** ** The vote-extension handlers *)

Section VoteExtensions.

Context `{!JSON}.

(** C3, as the code has it. VerifyVoteExtension accepts if and only if the
    bytes deserialize and the declared height is the requested one; bytes
    that do not deserialize and a height that differs give the two errors.
    The price map is not looked at. *)
Theorem VerifyVoteExtensionHandler_accepts h req :
  (VerifyVoteExtensionHandler h req
     = Ok {| vv_Status := ResponseVerifyVoteExtension_ACCEPT |}
   ↔ ∃ voteExt,
       Unmarshal_OracleVoteExtension (vv_VoteExtension req) = Ok voteExt
       ∧ Height voteExt = vv_Height req)
  ∧ (∀ e,
       Unmarshal_OracleVoteExtension (vv_VoteExtension req) = Err e →
       VerifyVoteExtensionHandler h req = Err (ErrUnmarshalVoteExt e))
  ∧ (∀ voteExt,
       Unmarshal_OracleVoteExtension (vv_VoteExtension req) = Ok voteExt →
       Height voteExt ≠ vv_Height req →
       VerifyVoteExtensionHandler h req
         = Err (ErrHeightMismatch (vv_Height req) (Height voteExt))).
Proof.
  unfold VerifyVoteExtensionHandler. split_and!.
  - destruct (Unmarshal_OracleVoteExtension _) as [voteExt|e|p].
    + case_decide as Hh; simpl.
      * split; [done|]. intros (v & [= <-] & Heq). done.
      * split; [|done]. intros _. exists voteExt. split; [done|].
        by destruct (decide (Height voteExt = vv_Height req)).
    + split; [done|]. by intros (v & ? & _).
    + split; [done|]. by intros (v & ? & _).
  - by intros e ->.
  - intros voteExt -> Hne. by rewrite decide_True.
Qed.

Lemma list_find_missing (computed : gmap string sdk.Dec) (l : list string) base :
  base ∈ l → computed !! base = None →
  is_Some (list_find (λ b, computed !! b = None) l).
Proof.
  intros Hin Hnone.
  destruct (list_find (λ b, computed !! b = None) l) as [[i b]|] eqn:Hf; [eauto|].
  apply list_find_None in Hf. rewrite Forall_forall in Hf.
  by destruct (Hf base Hin).
Qed.

(** C4. When the computed price map lacks a required base, whatever the
    price computation and whatever the providers did, ExtendVote returns an
    error and no payload, and caches nothing. *)
Theorem ExtendVoteHandler_missing_price compute h now fetch req base :
  base ∈ requiredRates (providerPairs h) →
  (compute (startExtendVote h now req)
     (fetchAll (providerPairs h) fetch)).1 !! base = None →
  ∃ e, ExtendVoteHandler_with compute h now fetch req
       = (startExtendVote h now req, Err e).
Proof.
  intros Hreq Hnone. unfold ExtendVoteHandler_with. simpl.
  destruct (compute _ _) as [computed [err|]]; [eauto|]. simpl in Hnone.
  destruct (list_find_missing computed
              (elements (requiredRates (providerPairs h))) base)
    as [[i b] ->]; [by apply elem_of_elements|done|eauto].
Qed.

(** The handler returns a payload when the price computation returns a map
    with a price for every required base and the extension serializes. *)
Lemma ExtendVoteHandler_with_payload compute h now fetch req computed bz :
  compute (startExtendVote h now req) (fetchAll (providerPairs h) fetch)
    = (computed, None) →
  (∀ base, base ∈ requiredRates (providerPairs h) → is_Some (computed !! base)) →
  Marshal_OracleVoteExtension
    {| Height := ev_Height req; Prices := computed |} = Ok bz →
  ExtendVoteHandler_with compute h now fetch req
  = (cachePrices (startExtendVote h now req) (ev_Height req) computed,
     Ok {| ev_VoteExtension := bz |}).
Proof.
  intros Hc Hall Hm. unfold ExtendVoteHandler_with. simpl. rewrite Hc.
  destruct (list_find _ _) as [[i b]|] eqn:Hf.
  - apply list_find_Some in Hf as (Hi & Hb & _).
    apply list_elem_of_lookup_2, elem_of_elements, Hall in Hi.
    rewrite Hb in Hi. by destruct Hi.
  - by rewrite Hm.
Qed.

(** A payload is returned in no other case. *)
Lemma ExtendVoteHandler_payload_inv compute h now fetch req h' bz :
  ExtendVoteHandler_with compute h now fetch req
    = (h', Ok {| ev_VoteExtension := bz |}) →
  ∃ computed,
    compute (startExtendVote h now req) (fetchAll (providerPairs h) fetch)
      = (computed, None)
    ∧ (∀ base, base ∈ requiredRates (providerPairs h) →
         is_Some (computed !! base))
    ∧ Marshal_OracleVoteExtension
        {| Height := ev_Height req; Prices := computed |} = Ok bz
    ∧ h' = cachePrices (startExtendVote h now req) (ev_Height req) computed.
Proof.
  unfold ExtendVoteHandler_with. simpl.
  destruct (compute _ _) as [computed [err|]]; [done|].
  destruct (list_find _ _) as [[i b]|] eqn:Hf; [done|].
  destruct (Marshal_OracleVoteExtension _) as [bz'|e|p] eqn:Hm; [|done|done].
  intros [= <- <-]. exists computed. split_and!; [done| |done|done].
  intros base Hbase. apply list_find_None in Hf. rewrite Forall_forall in Hf.
  apply elem_of_elements, Hf in Hbase.
  by destruct (computed !! base); [eauto|].
Qed.

(** With the price computation of the source a payload is returned only when
    no base is required. *)
Lemma ExtendVoteHandler_source h now fetch req :
  requiredRates (providerPairs h) ≠ ∅ →
  ∃ base, base ∈ requiredRates (providerPairs h)
    ∧ ExtendVoteHandler h now fetch req
      = (startExtendVote h now req, Err (ErrFindPrice base)).
Proof.
  intros Hne. unfold ExtendVoteHandler, ExtendVoteHandler_with. simpl.
  destruct (list_find _ _) as [[i b]|] eqn:Hf.
  - apply list_find_Some in Hf as (Hi & _ & _).
    apply list_elem_of_lookup_2, elem_of_elements in Hi. eauto.
  - apply list_find_None in Hf.
    apply set_choose_L in Hne as [b Hb].
    apply elem_of_elements in Hb. rewrite Forall_forall in Hf.
    destruct (Hf b Hb). apply lookup_empty.
Qed.

(** C5, as the code has it. When the price computation returns a map with
    a price for every required base and the extension serializes, ExtendVote
    returns the serialized extension, of the request's height and with
    exactly the computed price map, and caches the map under that height.
    With the price computation of the source, which returns no prices, a
    required base makes ExtendVote return the error of a missing price,
    whatever the providers answered. *)
Theorem ExtendVoteHandler_payload h now fetch req :
  (∀ compute computed bz,
     compute (startExtendVote h now req) (fetchAll (providerPairs h) fetch)
       = (computed, None) →
     (∀ base, base ∈ requiredRates (providerPairs h) →
        is_Some (computed !! base)) →
     Marshal_OracleVoteExtension
       {| Height := ev_Height req; Prices := computed |} = Ok bz →
     ExtendVoteHandler_with compute h now fetch req
     = (cachePrices (startExtendVote h now req) (ev_Height req) computed,
        Ok {| ev_VoteExtension := bz |}))
  ∧ (requiredRates (providerPairs h) ≠ ∅ →
     ∃ base, base ∈ requiredRates (providerPairs h)
       ∧ ExtendVoteHandler h now fetch req
         = (startExtendVote h now req, Err (ErrFindPrice base))).
Proof.
  split.
  - intros compute computed bz. apply ExtendVoteHandler_with_payload.
  - apply ExtendVoteHandler_source.
Qed.

End VoteExtensions.

(** ** The reference wire format: reading back what was written *)

Module GoJSONFacts.

Import GoJSON.

Local Open Scope char_scope.
Local Open Scope Z_scope.
Local Open Scope list_scope.

(** *** Digits *)

Lemma digit_spec n :
  0 ≤ n < 10 → is_digit (digit n) = true ∧ digit_val (digit n) = n.
Proof.
  intros Hn.
  assert (Hcases : n = 0 ∨ n = 1 ∨ n = 2 ∨ n = 3 ∨ n = 4 ∨ n = 5 ∨ n = 6
                   ∨ n = 7 ∨ n = 8 ∨ n = 9) by lia.
  destruct_or!; subst n; split; reflexivity.
Qed.

Lemma horner_snoc ds c : horner (ds ++ [c]) = 10 * horner ds + digit_val c.
Proof. unfold horner. by rewrite fold_left_app. Qed.

Lemma span_digits_app ds rest :
  Forall (λ c, is_digit c = true) ds → no_digit_ahead rest →
  span_digits (ds ++ rest) = (ds, rest).
Proof.
  intros Hds Hrest. induction Hds as [|c ds Hc _ IH]; simpl.
  - destruct rest as [|c rest]; [done|]. simpl in *. by rewrite Hrest.
  - by rewrite Hc, IH.
Qed.

(** *** Natural numbers *)

Lemma print_nat_fuel_S fuel n :
  print_nat_fuel (S fuel) n =
  if n <? 10 then [digit n]
  else print_nat_fuel fuel (n / 10) ++ [digit (n mod 10)].
Proof. reflexivity. Qed.

Lemma print_nat_fuel_spec fuel : ∀ n,
  0 ≤ n < 2 ^ Z.of_nat (S fuel) →
  Forall (λ c, is_digit c = true) (print_nat_fuel (S fuel) n)
  ∧ print_nat_fuel (S fuel) n ≠ []
  ∧ horner (print_nat_fuel (S fuel) n) = n.
Proof.
  induction fuel as [|fuel IH]; intros n Hn;
    (rewrite print_nat_fuel_S; destruct (n <? 10) eqn:Hlt;
     [ apply Z.ltb_lt in Hlt; destruct (digit_spec n) as [Hd Hv]; [lia|];
       split_and!; [by repeat constructor|done|]; unfold horner; simpl; lia
     | apply Z.ltb_ge in Hlt ]).
  - change (2 ^ Z.of_nat 1) with 2 in Hn. lia.
  - assert (Hdiv : 0 ≤ n / 10 < 2 ^ Z.of_nat (S fuel)).
    { split; [apply Z.div_pos; lia|].
      apply Z.div_lt_upper_bound; [lia|].
      rewrite (Nat2Z.inj_succ (S fuel)), Z.pow_succ_r in Hn by lia. lia. }
    destruct (IH _ Hdiv) as (Hds & Hne & Hh).
    destruct (digit_spec (n mod 10)) as [Hd Hv];
      [apply Z.mod_pos_bound; lia|].
    split_and!.
    + apply Forall_app. split; [done|by repeat constructor].
    + intros Hnil. by apply app_eq_nil in Hnil as [_ ?].
    + rewrite horner_snoc, Hh, Hv. symmetry. apply Z.div_mod. lia.
Qed.

Lemma print_nat_spec n :
  0 ≤ n →
  Forall (λ c, is_digit c = true) (print_nat n)
  ∧ print_nat n ≠ []
  ∧ horner (print_nat n) = n.
Proof.
  intros Hn. apply print_nat_fuel_spec. split; [done|].
  rewrite Nat2Z.inj_succ, Z2Nat.id by apply Z.log2_nonneg.
  destruct (decide (n = 0)) as [->|Hne]; [done|].
  apply Z.log2_spec. lia.
Qed.

Lemma parse_nat_print_nat n rest :
  0 ≤ n → no_digit_ahead rest →
  parse_nat (print_nat n ++ rest) = Some (n, rest).
Proof.
  intros Hn Hrest. destruct (print_nat_spec n Hn) as (Hds & Hne & Hh).
  unfold parse_nat. rewrite span_digits_app by done.
  destruct (print_nat n); [done|]. by rewrite Hh.
Qed.

(** A text that starts with a digit does not start with the minus sign. *)
Lemma parse_int_digits (f : list ascii → option (Z * list ascii)) ds rest :
  Forall (λ c, is_digit c = true) ds → ds ≠ [] →
  match ds ++ rest with
  | "-" :: s' => '(n, rest) ← f s'; Some (- n, rest)
  | _ => f (ds ++ rest)
  end = f (ds ++ rest).
Proof.
  intros Hds Hne. destruct Hds as [|c ds Hc _]; [done|]. simpl.
  destruct c as [[] [] [] [] [] [] [] []]; try reflexivity; discriminate Hc.
Qed.

Lemma parse_int_print_int z rest :
  no_digit_ahead rest →
  parse_int (print_int z ++ rest) = Some (z, rest).
Proof.
  intros Hrest. unfold parse_int, print_int. destruct (z <? 0) eqn:Hz.
  - apply Z.ltb_lt in Hz. simpl.
    rewrite parse_nat_print_nat by (done || lia). simpl. f_equal. f_equal. lia.
  - apply Z.ltb_ge in Hz. destruct (print_nat_spec z Hz) as (Hds & Hne & _).
    rewrite (parse_int_digits parse_nat) by done.
    by apply parse_nat_print_nat.
Qed.

(** *** Digits after the point *)

Lemma print_fixed_spec n : ∀ r,
  0 ≤ r →
  Forall (λ c, is_digit c = true) (print_fixed n r)
  ∧ length (print_fixed n r) = n
  ∧ horner (print_fixed n r) = r mod 10 ^ Z.of_nat n.
Proof.
  induction n as [|n IH]; intros r Hr.
  - split_and!; [constructor|done|]. simpl. by rewrite Z.mod_1_r.
  - assert (Hdiv : 0 ≤ r / 10) by (apply Z.div_pos; lia).
    destruct (IH _ Hdiv) as (Hds & Hlen & Hh).
    destruct (digit_spec (r mod 10)) as [Hd Hv];
      [apply Z.mod_pos_bound; lia|].
    simpl print_fixed. split_and!.
    + apply Forall_app. split; [done|by repeat constructor].
    + rewrite length_app, Hlen. simpl. lia.
    + rewrite horner_snoc, Hh, Hv.
      rewrite Nat2Z.inj_succ, Z.pow_succ_r by lia.
      rewrite (Z.rem_mul_r r 10 (10 ^ Z.of_nat n)) by lia. lia.
Qed.

(** *** Decimals *)


Lemma parse_fraction_print_fixed r rest :
  0 ≤ r → no_digit_ahead rest →
  parse_fraction ("." :: print_fixed (Z.to_nat sdk.Precision) r ++ rest)
  = Some (r mod 10 ^ sdk.Precision, rest).
Proof.
  intros Hr Hrest.
  destruct (print_fixed_spec (Z.to_nat sdk.Precision) r Hr) as (Hds & Hlen & Hh).
  unfold parse_fraction. rewrite span_digits_app by done.
  rewrite Hlen, Hh. rewrite Z2Nat.id by done.
  rewrite decide_True by done.
  rewrite Z.sub_diag, Z.pow_0_r. f_equal. f_equal. lia.
Qed.

Lemma parse_unsigned_dec_print a rest :
  0 ≤ a → no_digit_ahead rest →
  parse_unsigned_dec
    (print_nat (a / 10 ^ sdk.Precision) ++
     "." :: print_fixed (Z.to_nat sdk.Precision) (a mod 10 ^ sdk.Precision) ++
     rest)
  = Some (a, rest).
Proof.
  intros Ha Hrest. unfold parse_unsigned_dec.
  assert (Hpow : 0 < 10 ^ sdk.Precision) by done.
  rewrite parse_nat_print_nat; [|apply Z.div_pos; lia|done]. step_bind.
  rewrite parse_fraction_print_fixed;
    [|apply Z.mod_pos_bound; lia|done]. step_bind.
  rewrite Z.mod_mod by lia. f_equal. f_equal.
  rewrite (Z.div_mod a (10 ^ sdk.Precision)) at 3 by lia. lia.
Qed.

Lemma parse_dec_print_dec d rest :
  no_digit_ahead rest → parse_dec (print_dec d ++ rest) = Some (d, rest).
Proof.
  intros Hrest. unfold parse_dec, print_dec. destruct (d <? 0) eqn:Hd.
  - apply Z.ltb_lt in Hd. cbn [app]. rewrite <- app_assoc. cbn [app].
    rewrite parse_unsigned_dec_print by (done || lia). step_bind.
    f_equal. f_equal. lia.
  - apply Z.ltb_ge in Hd. cbn [app]. rewrite <- app_assoc. cbn [app].
    assert (Hpow : 0 < 10 ^ sdk.Precision) by done.
    destruct (print_nat_spec (Z.abs d / 10 ^ sdk.Precision)) as (Hds & Hne & _);
      [apply Z.div_pos; lia|].
    rewrite (parse_int_digits parse_unsigned_dec) by done.
    rewrite parse_unsigned_dec_print by (done || lia).
    f_equal. f_equal. lia.
Qed.

(** *** Strings *)

Lemma parse_chars_escape c s :
  parse_chars (escape c ++ s) =
  '(cs, rest) ← parse_chars s; Some (c :: cs, rest).
Proof.
  destruct c as [[] [] [] [] [] [] [] []]; reflexivity.
Qed.

Lemma parse_chars_escaped cs rest :
  parse_chars (flat_map escape cs ++ dquote :: rest) = Some (cs, rest).
Proof.
  induction cs as [|c cs IH]; [done|]. simpl.
  rewrite <- app_assoc, parse_chars_escape, IH. done.
Qed.

Lemma parse_string_print_string k rest :
  parse_string (print_string k ++ rest) = Some (k, rest).
Proof.
  unfold parse_string, print_string. simpl.
  rewrite <- app_assoc. simpl. rewrite parse_chars_escaped. simpl.
  by rewrite string_of_list_ascii_of_string.
Qed.

Lemma expect_app lit s : expect lit (lit ++ s) = Some s.
Proof.
  induction lit as [|l lit IH]; simpl; [by destruct s|].
  by rewrite Ascii.eqb_refl.
Qed.

(** *** The price map *)

Lemma parse_entry_print_entry e rest :
  parse_entry (print_entry e ++ rest) = Some (e, rest).
Proof.
  destruct e as [k d]. unfold parse_entry, print_entry. cbn [fst snd].
  rewrite <- app_assoc. rewrite parse_string_print_string. step_bind.
  change (":" :: dquote :: print_dec d ++ [dquote])
    with ([":"; dquote] ++ (print_dec d ++ [dquote])).
  rewrite <- !app_assoc, expect_app. step_bind.
  rewrite parse_dec_print_dec by reflexivity. step_bind.
  by rewrite expect_app.
Qed.

Lemma print_entries_cons e l :
  print_entries (e :: l) =
  print_entry e ++ match l with [] => [] | _ :: _ => "," :: print_entries l end.
Proof. reflexivity. Qed.

Lemma parse_entries_S fuel s :
  parse_entries (S fuel) s =
  '(e, s1) ← parse_entry s;
  match s1 with
  | "," :: s2 => '(l, rest) ← parse_entries fuel s2; Some (e :: l, rest)
  | "}" :: s2 => Some ([e], s2)
  | _ => None
  end.
Proof. reflexivity. Qed.

Lemma parse_entries_print_entries l : ∀ fuel rest,
  l ≠ [] → (length l ≤ fuel)%nat →
  parse_entries fuel (print_entries l ++ "}" :: rest) = Some (l, rest).
Proof.
  induction l as [|e l IH]; intros fuel rest Hne Hfuel; [done|].
  destruct fuel as [|fuel]; [simpl in Hfuel; lia|].
  rewrite parse_entries_S, print_entries_cons, <- app_assoc.
  rewrite parse_entry_print_entry. step_bind.
  destruct l as [|e' l].
  - reflexivity.
  - cbn [app]. rewrite IH; [done|done|simpl in *; lia].
Qed.

Lemma print_entry_head e : ∃ s, print_entry e = dquote :: s.
Proof. destruct e as [k d]. unfold print_entry, print_string. by eexists. Qed.

Lemma print_entries_length l : (length l ≤ length (print_entries l))%nat.
Proof.
  induction l as [|e l IH]; [done|]. rewrite print_entries_cons.
  destruct (print_entry_head e) as [s ->].
  destruct l as [|e' l]; simpl in *; rewrite ?length_app; simpl; lia.
Qed.

Lemma parse_prices_entries s :
  parse_prices ("{" :: dquote :: s) =
  '(l, rest) ← parse_entries (length (dquote :: s)) (dquote :: s);
  Some (list_to_map (reverse l), rest).
Proof. reflexivity. Qed.

Lemma list_to_map_sorted (m : gmap string sdk.Dec) :
  list_to_map (reverse (merge_sort key_le (map_to_list m))) = m.
Proof.
  rewrite <- (list_to_map_to_list m) at 2. symmetry.
  apply list_to_map_proper; [apply NoDup_fst_map_to_list|].
  by rewrite reverse_Permutation, merge_sort_Permutation.
Qed.

Lemma parse_prices_print_prices m rest :
  parse_prices (print_prices m ++ rest) = Some (m, rest).
Proof.
  unfold print_prices.
  pose proof (list_to_map_sorted m) as Hm.
  pose proof (print_entries_length (merge_sort key_le (map_to_list m))) as Hlen.
  destruct (merge_sort key_le (map_to_list m)) as [|e l] eqn:Hl.
  - simpl in Hm. subst m. reflexivity.
  - cbn [app]. rewrite <- app_assoc. cbn [app].
    pose proof (parse_entries_print_entries (e :: l)
                  (length (print_entries (e :: l) ++ "}" :: rest)) rest) as Hp.
    rewrite print_entries_cons in *.
    destruct (print_entry_head e) as [s Hs]. rewrite Hs in *. cbn [app] in *.
    rewrite parse_prices_entries, Hp; [|done|].
    + step_bind. by rewrite Hm.
    + rewrite <- app_assoc in *. simpl in *. rewrite !length_app in *.
      simpl in *. lia.
Qed.

(** *** The attestation *)

Lemma parse_vote_ext_print_vote_ext v :
  is_int64 (Height v) →
  parse_vote_ext (print_vote_ext v) = Some (v, []).
Proof.
  intros Hh. unfold parse_vote_ext, print_vote_ext.
  rewrite expect_app. step_bind.
  rewrite parse_int_print_int by reflexivity. step_bind.
  rewrite decide_True by done.
  rewrite expect_app. step_bind.
  rewrite parse_prices_print_prices. step_bind.
  by destruct v.
Qed.

(** C7. An attestation with an [int64] height and any price map is
    serialized to bytes that deserialize to the attestation itself: the same
    height and the same price map. *)
Theorem Marshal_Unmarshal_OracleVoteExtension (v : OracleVoteExtension) :
  is_int64 (Height v) →
  ∃ bz,
    Marshal_OracleVoteExtension (JSON := codec) v = Ok bz
    ∧ Unmarshal_OracleVoteExtension (JSON := codec) bz = Ok v.
Proof.
  intros Hh. eexists. split; [reflexivity|].
  cbn [Unmarshal_OracleVoteExtension codec]. unfold Unmarshal_vote_ext.
  rewrite list_ascii_of_string_of_list_ascii.
  by rewrite parse_vote_ext_print_vote_ext.
Qed.

End GoJSONFacts.

(** ** The scenarios, run on the reference wire format *)

Module Scenarios.

Import Examples.

#[local] Existing Instance GoJSON.codec.

(** Three equal validators attesting 10.00, 10.20 and 9.80 give exactly
    10.00. *)
Example stake_weighted_mean :
  computeStakeWeightedOraclePrices proposalHandler commitInfo
  = Ok {[ "ATOM" := cents 1000 ]}.
Proof. vm_compute. reflexivity. Qed.

(** The proposal an honest proposer prepares from these votes is accepted. *)
Example honest_proposal_accepted :
  match PrepareProposal proposalHandler {| LocalLastCommit := commitInfo |} with
  | Returned resp =>
      proposalStatus (ProcessProposal proposalHandler {| Txs := pp_Txs resp |})
  | Panicked _ => None
  end = Some ResponseProcessProposal_ACCEPT.
Proof. vm_compute. reflexivity. Qed.


(** Four validators of power 2^62: the [int64] total wraps around to zero. *)
Example accumulatedPower_wraps :
  accumulatedPower
    [vote "val1" (2 ^ 62) (attestation 100 "ATOM" (cents 1000));
     vote "val2" (2 ^ 62) (attestation 100 "ATOM" (cents 1000));
     vote "val3" (2 ^ 62) (attestation 100 "ATOM" (cents 1000));
     vote "val4" (2 ^ 62) (attestation 100 "ATOM" (cents 1000))] = 0.
Proof. reflexivity. Qed.

(** C1 at the commit-info with no votes: all (none) of its votes decode, the
    accumulated power is zero, and the aggregation ends in the panic of the
    division. *)
Lemma computeStakeWeightedOraclePrices_zero_stake_witness :
  allDecode (Votes noVotes)
  ∧ accumulatedPower (Votes noVotes) = 0
  ∧ computeStakeWeightedOraclePrices proposalHandler noVotes
    = Panic PanicDivisionByZero.
Proof.
  split_and!; [constructor | reflexivity |].
  apply computeStakeWeightedOraclePrices_zero_stake; [constructor | reflexivity].
Defined.

(** C6 at the three votes of the scenario and a permutation of them. *)
Lemma computeStakeWeightedOraclePrices_Permutation_witness :
  computeStakeWeightedOraclePrices proposalHandler commitInfo
  = computeStakeWeightedOraclePrices proposalHandler commitInfo_permuted.
Proof.
  apply computeStakeWeightedOraclePrices_Permutation.
  - exact (Permutation_sym (Permutation_cons_append [vote1; vote2] vote3)).
  - repeat constructor; eexists; vm_compute; reflexivity.
Defined.

(** C2 fails on the code: the proposer claims 11.00, the recomputation from
    the embedded commit-info gives 10.00, and the proposal is accepted. *)
Lemma ProcessProposal_accepts_mismatch :
  Unmarshal_StakeWeightedPrices (default "" (head (Txs (proposal commitInfo))))
    = Ok (injected commitInfo)
  ∧ computeStakeWeightedOraclePrices proposalHandler commitInfo
    = Ok {[ "ATOM" := cents 1000 ]}
  ∧ swp_StakeWeightedPrices (injected commitInfo) !! "ATOM" = Some (cents 1100)
  ∧ ({[ "ATOM" := cents 1000 ]} : gmap string sdk.Dec)
    ≠ swp_StakeWeightedPrices (injected commitInfo)
  ∧ proposalStatus (ProcessProposal proposalHandler (proposal commitInfo))
    = Some ResponseProcessProposal_ACCEPT.
Proof.
  split_and!; try (vm_compute; reflexivity).
  intros Heq. apply (f_equal (λ m : gmap string sdk.Dec, m !! "ATOM")) in Heq.
  vm_compute in Heq. discriminate Heq.
Qed.

(** C2 as amended, at the proposal with the mismatching claim (accepted) and
    at a proposal whose commit-info holds a vote that does not decode
    (rejected). *)
Lemma ProcessProposal_verdict_witness :
  proposalStatus (ProcessProposal proposalHandler (proposal commitInfo))
    = Some ResponseProcessProposal_ACCEPT
  ∧ proposalStatus
      (ProcessProposal proposalHandler (proposal commitInfo_malformed))
    = Some ResponseProcessProposal_REJECT.
Proof.
  split.
  - apply (ProcessProposal_verdict proposalHandler (proposal commitInfo)
             _ [] (injected commitInfo) eq_refl).
    + vm_compute. reflexivity.
    + eexists. vm_compute. reflexivity.
  - apply (ProcessProposal_verdict proposalHandler
             (proposal commitInfo_malformed)
             _ [] (injected commitInfo_malformed) eq_refl).
    + vm_compute. reflexivity.
    + eexists. vm_compute. reflexivity.
Defined.


(** C3 fails on the code: an attestation of the requested height for BTC,
    which is not a supported base, at a price no tolerance band around the
    validator's prices holds, is accepted. *)
Lemma VerifyVoteExtensionHandler_accepts_unsupported :
  VerifyVoteExtensionHandler voteExtHandler verifyRequest_BTC
    = Ok {| vv_Status := ResponseVerifyVoteExtension_ACCEPT |}
  ∧ Unmarshal_OracleVoteExtension (vv_VoteExtension verifyRequest_BTC)
    = Ok {| Height := 100; Prices := {[ "BTC" := cents 2500000 ]} |}
  ∧ "BTC" ∉ supportedBases (FauxOracleKeeper_ voteExtHandler).
Proof.
  split_and!; try (vm_compute; reflexivity).
  unfold supportedBases. simpl. intros Hin.
  apply list_elem_of_singleton in Hin. discriminate Hin.
Qed.

(** C3 as amended, at the attestation for BTC (accepted), and at an
    attestation of height 101 received for height 100 (rejected). *)
Lemma VerifyVoteExtensionHandler_accepts_witness :
  VerifyVoteExtensionHandler voteExtHandler verifyRequest_BTC
    = Ok {| vv_Status := ResponseVerifyVoteExtension_ACCEPT |}
  ∧ VerifyVoteExtensionHandler voteExtHandler verifyRequest_101
    = Err (ErrHeightMismatch 100 101).
Proof.
  split.
  - apply (proj1 (VerifyVoteExtensionHandler_accepts voteExtHandler
                    verifyRequest_BTC)).
    eexists. split; [vm_compute; reflexivity | reflexivity].
  - apply (proj2 (proj2 (VerifyVoteExtensionHandler_accepts voteExtHandler
                           verifyRequest_101))
             {| Height := 101; Prices := {[ "ATOM" := cents 1000 ]} |}).
    + vm_compute. reflexivity.
    + simpl. lia.
Defined.

Lemma requiredRates_voteExtHandler :
  requiredRates (providerPairs voteExtHandler) = {[ "ATOM" ]}.
Proof.
  unfold requiredRates. simpl. rewrite map_to_list_singleton. simpl.
  set_solver.
Qed.

(** C4 when every provider times out: the validator needs ATOM, nothing was
    computed for it, and ExtendVote returns an error. *)
Lemma ExtendVoteHandler_missing_price_witness :
  ∃ e, ExtendVoteHandler voteExtHandler 0 fetch_timeout {| ev_Height := 100 |}
       = (startExtendVote voteExtHandler 0 {| ev_Height := 100 |}, Err e).
Proof.
  apply (ExtendVoteHandler_missing_price computeOraclePrices voteExtHandler 0
           fetch_timeout {| ev_Height := 100 |} "ATOM").
  - rewrite requiredRates_voteExtHandler. set_solver.
  - reflexivity.
Defined.

Lemma allProvidersRespond_fetch_ok :
  allProvidersRespond (providerPairs voteExtHandler) fetch_ok.
Proof.
  intros providerName currencyPairs Hp. simpl in Hp.
  apply lookup_singleton_Some in Hp as [_ <-].
  eexists _, _. split; [reflexivity|]. intros cp Hcp.
  apply list_elem_of_singleton in Hcp as ->. split.
  - eexists. vm_compute. reflexivity.
  - eexists _, _. vm_compute. reflexivity.
Qed.

(** C5 fails on the code: the one provider answers with a price and a candle
    for the one required base, the aggregator holds them, and ExtendVote
    returns the error of a missing price. *)
Lemma ExtendVoteHandler_fails_with_responses :
  allProvidersRespond (providerPairs voteExtHandler) fetch_ok
  ∧ priceAt (fetchAll (providerPairs voteExtHandler) fetch_ok) "binance" "ATOM"
    = Some ticker
  ∧ (ExtendVoteHandler voteExtHandler 0 fetch_ok {| ev_Height := 100 |}).2
    = Err (ErrFindPrice "ATOM").
Proof.
  split_and!; [apply allProvidersRespond_fetch_ok | |];
    vm_compute; reflexivity.
Qed.

(** C5 as amended, with a price computation that returns the provider's
    last trade prices: the payload is the attestation of 10.00 for ATOM at
    height 100, and the price map is cached under 100. *)
Lemma ExtendVoteHandler_payload_witness :
  ExtendVoteHandler_with lastTradePrices voteExtHandler 0 fetch_ok
    {| ev_Height := 100 |}
  = (cachePrices (startExtendVote voteExtHandler 0 {| ev_Height := 100 |})
       100 {[ "ATOM" := cents 1000 ]},
     Ok {| ev_VoteExtension := attestation 100 "ATOM" (cents 1000) |}).
Proof.
  apply (proj1 (ExtendVoteHandler_payload voteExtHandler 0 fetch_ok
                  {| ev_Height := 100 |})
           lastTradePrices {[ "ATOM" := cents 1000 ]}).
  - vm_compute. reflexivity.
  - intros base Hbase. rewrite requiredRates_voteExtHandler in Hbase.
    apply elem_of_singleton in Hbase as ->. eexists. vm_compute. reflexivity.
  - reflexivity.
Defined.

(** With the price computation of the source and no provider configured the
    payload is the attestation with no prices. *)
Example ExtendVoteHandler_noProviders :
  (ExtendVoteHandler voteExtHandler_noProviders 0 fetch_ok
     {| ev_Height := 100 |}).2
  = Ok {| ev_VoteExtension :=
            string_of_list_ascii
              (GoJSON.print_vote_ext {| Height := 100; Prices := ∅ |}) |}.
Proof. vm_compute. reflexivity. Qed.

(** C7 at the attestation of two prices, one of them negative. *)
Lemma Marshal_Unmarshal_OracleVoteExtension_witness :
  ∃ bz,
    Marshal_OracleVoteExtension
      {| Height := 100;
         Prices := {[ "ATOM" := cents 1000; "BTC" := -5 ]} |} = Ok bz
    ∧ Unmarshal_OracleVoteExtension bz
      = Ok {| Height := 100;
              Prices := {[ "ATOM" := cents 1000; "BTC" := -5 ]} |}.
Proof.
  apply (GoJSONFacts.Marshal_Unmarshal_OracleVoteExtension
           {| Height := 100;
              Prices := {[ "ATOM" := cents 1000; "BTC" := -5 ]} |}).
  unfold is_int64, int64_min, int64_max. simpl. lia.
Defined.

End Scenarios.

(** * Further properties *)

(** ** The aggregator: how calls compose *)

Section Stores.

Context {V : Type}.
Implicit Types m : gmap string (gmap string V).

(** The lazily-create step and the optional store, as one insertion. *)
Lemma store_insert m P base (o : option V) :
  match o with
  | Some v => setEntry P base v (ensureProvider P m)
  | None => ensureProvider P m
  end
  = <[P := match o with
           | Some v => <[base := v]> (default ∅ (m !! P))
           | None => default ∅ (m !! P)
           end]> m.
Proof.
  apply map_eq. intros Q. rewrite store_lookup.
  case_decide as HPQ.
  - subst Q. by rewrite lookup_insert_eq.
  - by rewrite lookup_insert_ne.
Qed.

Lemma store_store_comm m P1 b1 (o1 : option V) P2 b2 (o2 : option V) :
  (P1, b1) ≠ (P2, b2) →
  match o2 with
  | Some v => setEntry P2 b2 v
                (ensureProvider P2
                   match o1 with
                   | Some v => setEntry P1 b1 v (ensureProvider P1 m)
                   | None => ensureProvider P1 m
                   end)
  | None => ensureProvider P2
              match o1 with
              | Some v => setEntry P1 b1 v (ensureProvider P1 m)
              | None => ensureProvider P1 m
              end
  end
  = match o1 with
    | Some v => setEntry P1 b1 v
                  (ensureProvider P1
                     match o2 with
                     | Some v => setEntry P2 b2 v (ensureProvider P2 m)
                     | None => ensureProvider P2 m
                     end)
    | None => ensureProvider P1
                match o2 with
                | Some v => setEntry P2 b2 v (ensureProvider P2 m)
                | None => ensureProvider P2 m
                end
    end.
Proof.
  intros Hne. rewrite !store_insert.
  destruct (decide (P1 = P2)) as [->|HP].
  - assert (b1 ≠ b2) by congruence.
    rewrite !lookup_insert_eq, !insert_insert_eq. f_equal. simpl.
    destruct o1, o2; try done. by rewrite insert_insert_ne.
  - rewrite !lookup_insert_ne by done. by apply insert_insert_ne.
Qed.

Lemma store_store_same m P base (o : option V) :
  match o with
  | Some v => setEntry P base v
                (ensureProvider P
                   match o with
                   | Some v => setEntry P base v (ensureProvider P m)
                   | None => ensureProvider P m
                   end)
  | None => ensureProvider P
              match o with
              | Some v => setEntry P base v (ensureProvider P m)
              | None => ensureProvider P m
              end
  end
  = match o with
    | Some v => setEntry P base v (ensureProvider P m)
    | None => ensureProvider P m
    end.
Proof.
  rewrite !store_insert. rewrite lookup_insert_eq, insert_insert_eq. simpl.
  f_equal. destruct o; [|done]. by rewrite insert_insert_eq.
Qed.

End Stores.

(** X1. Two calls that write to different places (another provider, or
    another base of the same provider) can be made in either order: the
    aggregator they leave is the same, and what each call returns does not
    depend on the other. This is how the aggregator serves the concurrent
    price-fetching tasks, which take its lock in an order that is not
    fixed. *)
Theorem SetProviderTickerPricesAndCandles_comm
    p P1 prices1 candles1 pair1 P2 prices2 candles2 pair2 :
  (P1, Base pair1) ≠ (P2, Base pair2) →
  let set1 a := SetProviderTickerPricesAndCandles a P1 prices1 candles1 pair1 in
  let set2 a := SetProviderTickerPricesAndCandles a P2 prices2 candles2 pair2 in
  (set2 (set1 p).1).1 = (set1 (set2 p).1).1
  ∧ (set1 (set2 p).1).2 = (set1 p).2
  ∧ (set2 (set1 p).1).2 = (set2 p).2.
Proof.
  intros Hne set1 set2. subst set1 set2. cbv beta.
  rewrite !SetProviderTickerPricesAndCandles_eq. simpl.
  split; [|done]. f_equal; by apply store_store_comm.
Qed.

(** X2. A call made a second time with the same arguments changes nothing:
    the aggregator and the result are those of the first call. *)
Theorem SetProviderTickerPricesAndCandles_idemp p providerName prices candles pair :
  SetProviderTickerPricesAndCandles
    (SetProviderTickerPricesAndCandles p providerName prices candles pair).1
    providerName prices candles pair
  = SetProviderTickerPricesAndCandles p providerName prices candles pair.
Proof.
  rewrite !SetProviderTickerPricesAndCandles_eq. simpl.
  f_equal. f_equal; apply store_store_same.
Qed.

Lemma append_assoc (s1 s2 s3 : string) :
  (s1 +:+ s2) +:+ s3 = s1 +:+ (s2 +:+ s3).
Proof.
  induction s1 as [|c s1 IH]; [reflexivity|].
  change (String c ((s1 +:+ s2) +:+ s3) = String c (s1 +:+ (s2 +:+ s3))).
  by rewrite IH.
Qed.

(** X3. The key of a pair is its base and its quote run together, with
    nothing between them, so pairs that split the same text at different
    places share a key. For two such pairs a call returns the same result,
    and the call for either pair stores under its own base what the response
    has under the shared key. *)
Theorem CurrencyPair_String_shared p providerName prices candles base1 base2 quote :
  let pair1 := {| Base := base1 +:+ base2; Quote := quote |} in
  let pair2 := {| Base := base1; Quote := base2 +:+ quote |} in
  let r1 := SetProviderTickerPricesAndCandles p providerName prices candles pair1 in
  let r2 := SetProviderTickerPricesAndCandles p providerName prices candles pair2 in
  CurrencyPair_String pair1 = CurrencyPair_String pair2
  ∧ r1.2 = r2.2
  ∧ (∀ tp, prices !! CurrencyPair_String pair1 = Some tp →
       priceAt r1.1 providerName (base1 +:+ base2) = Some tp
       ∧ priceAt r2.1 providerName base1 = Some tp).
Proof.
  intros pair1 pair2 r1 r2.
  assert (Hkey : CurrencyPair_String pair1 = CurrencyPair_String pair2).
  { unfold CurrencyPair_String. simpl. apply append_assoc. }
  subst r1 r2. rewrite !SetProviderTickerPricesAndCandles_eq. simpl.
  rewrite <- Hkey. split_and!; [done|done|].
  intros tp Htp. rewrite Htp. unfold priceAt. simpl.
  rewrite !setEntry_lookup, !decide_True by done.
  rewrite !ensureProvider_lookup, !decide_True by done. simpl.
  by rewrite !lookup_insert_eq.
Qed.

(** ** The provider tasks *)

Section StoreAt.

Context {V : Type}.
Implicit Types m : gmap string (gmap string V).

(** What is read at provider [Q] and base [b] after the lazily-create step
    and the optional store at [P] and [base]. *)
Lemma store_at m P base (o : option V) Q b :
  match o with
  | Some v => setEntry P base v (ensureProvider P m)
  | None => ensureProvider P m
  end !! Q ≫= (.!! b)
  = if decide ((Q, b) = (P, base))
    then match o with
         | Some v => Some v
         | None => m !! Q ≫= (.!! b)
         end
    else m !! Q ≫= (.!! b).
Proof.
  rewrite store_lookup. destruct (decide (P = Q)) as [<-|HPQ]; simpl.
  - destruct (decide (b = base)) as [->|Hb].
    + rewrite decide_True by done. destruct o; simpl.
      * by rewrite lookup_insert_eq.
      * destruct (m !! P); simpl; [done|]. apply lookup_empty.
    + rewrite decide_False by congruence. destruct o; simpl.
      * rewrite lookup_insert_ne by done.
        destruct (m !! P); simpl; [done|]. apply lookup_empty.
      * destruct (m !! P); simpl; [done|]. apply lookup_empty.
  - by rewrite decide_False by congruence.
Qed.

End StoreAt.

Lemma Set_priceAt p P prices candles pair Q b :
  priceAt (SetProviderTickerPricesAndCandles p P prices candles pair).1 Q b
  = if decide ((Q, b) = (P, Base pair))
    then match prices !! CurrencyPair_String pair with
         | Some tp => Some tp
         | None => priceAt p Q b
         end
    else priceAt p Q b.
Proof.
  rewrite SetProviderTickerPricesAndCandles_eq. unfold priceAt. simpl.
  apply store_at.
Qed.

Lemma Set_candlesAt p P prices candles pair Q b :
  candlesAt (SetProviderTickerPricesAndCandles p P prices candles pair).1 Q b
  = if decide ((Q, b) = (P, Base pair))
    then match candles !! CurrencyPair_String pair with
         | Some cp => Some cp
         | None => candlesAt p Q b
         end
    else candlesAt p Q b.
Proof.
  rewrite SetProviderTickerPricesAndCandles_eq. unfold candlesAt. simpl.
  apply store_at.
Qed.

Lemma Set_success p P prices candles pair :
  (SetProviderTickerPricesAndCandles p P prices candles pair).2 = true
  ↔ is_Some (prices !! CurrencyPair_String pair)
    ∨ is_Some (candles !! CurrencyPair_String pair).
Proof.
  rewrite SetProviderTickerPricesAndCandles_eq. simpl.
  rewrite orb_true_iff, !bool_decide_eq_true. done.
Qed.

Lemma Set_other p P prices candles pair Q :
  Q ≠ P →
  providerPrices (SetProviderTickerPricesAndCandles p P prices candles pair).1 !! Q
    = providerPrices p !! Q
  ∧ providerCandles (SetProviderTickerPricesAndCandles p P prices candles pair).1 !! Q
    = providerCandles p !! Q.
Proof.
  intros HQ. rewrite SetProviderTickerPricesAndCandles_eq. simpl.
  rewrite !store_lookup. by rewrite !decide_False by done.
Qed.

(** The merging loop returns no error exactly when every pair has a key in
    one of the two maps of the response. *)
Lemma setPairs_success agg P prices candles pairs :
  (setPairs agg P prices candles pairs).2 = None
  ↔ ∀ cp, cp ∈ pairs →
      is_Some (prices !! CurrencyPair_String cp)
      ∨ is_Some (candles !! CurrencyPair_String cp).
Proof.
  revert agg. induction pairs as [|cp pairs IH]; intros agg; simpl.
  - split; [|done]. intros _ cp Hcp. by apply elem_of_nil in Hcp.
  - pose proof (Set_success agg P prices candles cp) as Hs.
    destruct (SetProviderTickerPricesAndCandles agg P prices candles cp)
      as [agg' [|]]; simpl in *.
    + rewrite IH. split.
      * intros Hall c Hc. apply elem_of_cons in Hc as [->|Hc]; [|by apply Hall].
        by apply Hs.
      * intros Hall c Hc. apply Hall. by apply elem_of_cons; right.
    + split; [done|]. intros Hall.
      assert (false = true) as Hft; [|done].
      apply Hs, Hall. by apply elem_of_cons; left.
Qed.

(** The loop leaves the other providers alone. *)
Lemma setPairs_other agg P prices candles pairs Q :
  Q ≠ P →
  providerPrices (setPairs agg P prices candles pairs).1 !! Q
    = providerPrices agg !! Q
  ∧ providerCandles (setPairs agg P prices candles pairs).1 !! Q
    = providerCandles agg !! Q.
Proof.
  intros HQ. revert agg. induction pairs as [|cp pairs IH]; intros agg; simpl.
  - done.
  - pose proof (Set_other agg P prices candles cp Q HQ) as [Hp Hc].
    destruct (SetProviderTickerPricesAndCandles agg P prices candles cp)
      as [agg' [|]]; simpl in *.
    + destruct (IH agg') as [-> ->]. done.
    + done.
Qed.

(** The loop removes no entry. *)
Lemma setPairs_keeps agg P prices candles pairs Q b :
  (is_Some (priceAt agg Q b) →
     is_Some (priceAt (setPairs agg P prices candles pairs).1 Q b))
  ∧ (is_Some (candlesAt agg Q b) →
     is_Some (candlesAt (setPairs agg P prices candles pairs).1 Q b)).
Proof.
  revert agg. induction pairs as [|cp pairs IH]; intros agg; simpl.
  - done.
  - pose proof (Set_priceAt agg P prices candles cp Q b) as Hp.
    pose proof (Set_candlesAt agg P prices candles cp Q b) as Hc.
    assert (Hp' : is_Some (priceAt agg Q b) →
      is_Some (priceAt
        (SetProviderTickerPricesAndCandles agg P prices candles cp).1 Q b)).
    { intros H. rewrite Hp. case_decide; [|done].
      by destruct (prices !! _). }
    assert (Hc' : is_Some (candlesAt agg Q b) →
      is_Some (candlesAt
        (SetProviderTickerPricesAndCandles agg P prices candles cp).1 Q b)).
    { intros H. rewrite Hc. case_decide; [|done].
      by destruct (candles !! _). }
    clear Hp Hc.
    destruct (SetProviderTickerPricesAndCandles agg P prices candles cp)
      as [agg' [|]]; simpl in *.
    + destruct (IH agg') as [IHp IHc]. split; eauto.
    + split; eauto.
Qed.

(** After a loop that returned no error, what is read at the provider and
    the base of one of the pairs. *)
Lemma setPairs_stored agg P prices candles pairs :
  (setPairs agg P prices candles pairs).2 = None →
  ∀ cp, cp ∈ pairs →
    is_Some (priceAt (setPairs agg P prices candles pairs).1 P (Base cp))
    ∨ is_Some (candlesAt (setPairs agg P prices candles pairs).1 P (Base cp)).
Proof.
  revert agg. induction pairs as [|c pairs IH]; intros agg; simpl.
  - intros _ cp Hcp. by apply elem_of_nil in Hcp.
  - pose proof (Set_priceAt agg P prices candles c P (Base c)) as Hp.
    pose proof (Set_candlesAt agg P prices candles c P (Base c)) as Hc.
    pose proof (Set_success agg P prices candles c) as Hs.
    rewrite decide_True in Hp by done. rewrite decide_True in Hc by done.
    destruct (SetProviderTickerPricesAndCandles agg P prices candles c)
      as [agg' [|]]; simpl in *; [|done].
    intros Hok cp Hcp. apply elem_of_cons in Hcp as [->|Hcp].
    + destruct (setPairs_keeps agg' P prices candles pairs P (Base c))
        as [Kp Kc].
      destruct (proj1 Hs eq_refl) as [[tp Htp]|[cs Hcs]].
      * left. apply Kp. rewrite Hp, Htp. eauto.
      * right. apply Kc. rewrite Hc, Hcs. eauto.
    + by apply IH.
Qed.

(** With pairs of different bases every entry is written once: after a loop
    that returned no error it holds what the response has for the pair, or
    what it held before. *)
Lemma setPairs_exact agg P prices candles pairs :
  NoDup (Base <$> pairs) →
  (setPairs agg P prices candles pairs).2 = None →
  ∀ cp, cp ∈ pairs →
    priceAt (setPairs agg P prices candles pairs).1 P (Base cp)
    = match prices !! CurrencyPair_String cp with
      | Some tp => Some tp
      | None => priceAt agg P (Base cp)
      end
    ∧ candlesAt (setPairs agg P prices candles pairs).1 P (Base cp)
    = match candles !! CurrencyPair_String cp with
      | Some cs => Some cs
      | None => candlesAt agg P (Base cp)
      end.
Proof.
  revert agg. induction pairs as [|c pairs IH]; intros agg Hnd; simpl.
  - intros _ cp Hcp. by apply elem_of_nil in Hcp.
  - rewrite fmap_cons in Hnd. apply NoDup_cons in Hnd as [Hc Hnd].
    pose proof (λ b, Set_priceAt agg P prices candles c P b) as Hp.
    pose proof (λ b, Set_candlesAt agg P prices candles c P b) as Hca.
    destruct (SetProviderTickerPricesAndCandles agg P prices candles c)
      as [agg' [|]]; simpl in *; [|done].
    intros Hok cp Hcp. apply elem_of_cons in Hcp as [->|Hcp].
    + (* the first pair: no later pair writes to its base *)
      clear IH. specialize (Hp (Base c)). specialize (Hca (Base c)).
      rewrite decide_True in Hp by done. rewrite decide_True in Hca by done.
      rewrite <- Hp, <- Hca. clear Hp Hca Hok.
      revert agg'. induction pairs as [|d pairs IH]; intros agg'; simpl.
      * done.
      * rewrite fmap_cons in Hc, Hnd. apply not_elem_of_cons in Hc as [Hd Hc].
        apply NoDup_cons in Hnd as [_ Hnd].
        pose proof (Set_priceAt agg' P prices candles d P (Base c)) as Hp.
        pose proof (Set_candlesAt agg' P prices candles d P (Base c)) as Hca.
        rewrite decide_False in Hp by congruence.
        rewrite decide_False in Hca by congruence.
        destruct (SetProviderTickerPricesAndCandles agg' P prices candles d)
          as [agg'' [|]]; simpl in *.
        -- rewrite <- Hp, <- Hca. by apply IH.
        -- done.
    + destruct (IH agg' Hnd Hok cp Hcp) as [-> ->].
      assert (Base cp ≠ Base c).
      { intros Heq. apply Hc. rewrite <- Heq. by apply list_elem_of_fmap_2. }
      by rewrite Hp, Hca, !decide_False by congruence.
Qed.

(** X4. A provider's task returns no error exactly when the fetch was done
    and the response has, for every pair of the provider, a price or
    candles under the pair's key. Then the aggregator holds a price or
    candles for the provider at the base of every pair; and where the pairs
    have different bases, it holds for each pair what the response has under
    its key (what was there before, where the response has nothing). *)
Theorem providerTask_succeeds agg providerName currencyPairs o :
  let r := providerTask agg providerName currencyPairs o in
  (r.2 = None
   ↔ ∃ prices candles,
       o = FetchDone prices candles
       ∧ ∀ cp, cp ∈ currencyPairs →
           is_Some (prices !! CurrencyPair_String cp)
           ∨ is_Some (candles !! CurrencyPair_String cp))
  ∧ (r.2 = None →
     ∀ cp, cp ∈ currencyPairs →
       is_Some (priceAt r.1 providerName (Base cp))
       ∨ is_Some (candlesAt r.1 providerName (Base cp)))
  ∧ (r.2 = None →
     NoDup (Base <$> currencyPairs) →
     ∀ prices candles cp,
       o = FetchDone prices candles →
       cp ∈ currencyPairs →
       priceAt r.1 providerName (Base cp)
       = match prices !! CurrencyPair_String cp with
         | Some tp => Some tp
         | None => priceAt agg providerName (Base cp)
         end
       ∧ candlesAt r.1 providerName (Base cp)
       = match candles !! CurrencyPair_String cp with
         | Some cs => Some cs
         | None => candlesAt agg providerName (Base cp)
         end).
Proof.
  intros r. subst r. destruct o as [prices candles|e|]; simpl.
  - split_and!.
    + rewrite setPairs_success. split.
      * intros Hall. by exists prices, candles.
      * by intros (pr & ca & [= <- <-] & Hall).
    + apply setPairs_stored.
    + intros Hok Hnd pr ca cp [= <- <-]. by apply setPairs_exact.
  - split_and!; [|done|done]. split; [done|]. by intros (? & ? & ? & _).
  - split_and!; [|done|done]. split; [done|]. by intros (? & ? & ? & _).
Qed.

(** X5. A provider's task changes nothing of the other providers and
    removes no entry; a task whose fetch ended in an error or in the
    timeout, and a task with no pairs, leave the aggregator as it was. *)
Theorem providerTask_frame agg providerName currencyPairs o :
  let r := providerTask agg providerName currencyPairs o in
  (∀ Q, Q ≠ providerName →
     providerPrices r.1 !! Q = providerPrices agg !! Q
     ∧ providerCandles r.1 !! Q = providerCandles agg !! Q)
  ∧ (∀ Q b,
       (is_Some (priceAt agg Q b) → is_Some (priceAt r.1 Q b))
       ∧ (is_Some (candlesAt agg Q b) → is_Some (candlesAt r.1 Q b)))
  ∧ ((∀ prices candles, o ≠ FetchDone prices candles) → r.1 = agg)
  ∧ (currencyPairs = [] → r.1 = agg).
Proof.
  intros r. subst r. destruct o as [prices candles|e|]; simpl.
  - split_and!.
    + intros Q HQ. by apply setPairs_other.
    + intros Q b. apply setPairs_keeps.
    + intros Hno. by destruct (Hno prices candles).
    + by intros ->.
  - by split_and!.
  - by split_and!.
Qed.

(** The loop over a list of pairs, cut at the first pair without a key in
    the response. *)
Lemma setPairs_app_missing agg P prices candles
    (before : list CurrencyPair) cp after :
  (∀ c, c ∈ before →
     is_Some (prices !! CurrencyPair_String c)
     ∨ is_Some (candles !! CurrencyPair_String c)) →
  prices !! CurrencyPair_String cp = None →
  candles !! CurrencyPair_String cp = None →
  setPairs agg P prices candles (before ++ cp :: after)%list
  = ((SetProviderTickerPricesAndCandles
        (setPairs agg P prices candles before).1 P prices candles cp).1,
     Some ErrNoExchangeRates).
Proof.
  intros Hbefore Hp Hc. revert agg.
  induction before as [|c before IH]; intros agg; simpl.
  - rewrite SetProviderTickerPricesAndCandles_eq, Hp, Hc. reflexivity.
  - pose proof (Set_success agg P prices candles c) as Hs.
    destruct (SetProviderTickerPricesAndCandles agg P prices candles c)
      as [agg' [|]]; simpl in *.
    + apply IH. intros d Hd. apply Hbefore. by apply elem_of_cons; right.
    + assert (false = true) as Hft; [|done].
      apply Hs, Hbefore. by apply elem_of_cons; left.
Qed.

(** X6. A task whose response lacks a pair stops there with the error of no
    exchange rates, and keeps what it merged before: the pairs in front of
    the first pair without a key have their entries at the provider, and the
    aggregator holds, at every provider and base, what the task of those
    pairs alone leaves; the pairs behind are not merged. *)
Theorem providerTask_missing agg providerName prices candles
    (before : list CurrencyPair) cp after :
  (∀ c, c ∈ before →
     is_Some (prices !! CurrencyPair_String c)
     ∨ is_Some (candles !! CurrencyPair_String c)) →
  prices !! CurrencyPair_String cp = None →
  candles !! CurrencyPair_String cp = None →
  let r := providerTask agg providerName (before ++ cp :: after)%list
             (FetchDone prices candles) in
  let r0 := providerTask agg providerName before (FetchDone prices candles) in
  r.2 = Some ErrNoExchangeRates
  ∧ (∀ Q b, priceAt r.1 Q b = priceAt r0.1 Q b
            ∧ candlesAt r.1 Q b = candlesAt r0.1 Q b)
  ∧ (∀ c, c ∈ before →
       is_Some (priceAt r.1 providerName (Base c))
       ∨ is_Some (candlesAt r.1 providerName (Base c))).
Proof.
  intros Hbefore Hp Hc r r0. subst r r0. simpl.
  rewrite (setPairs_app_missing _ _ _ _ _ _ _ Hbefore Hp Hc). simpl.
  assert (Hat : ∀ Q b,
    priceAt (SetProviderTickerPricesAndCandles
               (setPairs agg providerName prices candles before).1
               providerName prices candles cp).1 Q b
    = priceAt (setPairs agg providerName prices candles before).1 Q b
    ∧ candlesAt (SetProviderTickerPricesAndCandles
                   (setPairs agg providerName prices candles before).1
                   providerName prices candles cp).1 Q b
      = candlesAt (setPairs agg providerName prices candles before).1 Q b).
  { intros Q b. rewrite Set_priceAt, Set_candlesAt, Hp, Hc.
    by case_decide. }
  split_and!; [done|exact Hat|].
  intros c Hc'. destruct (Hat providerName (Base c)) as [-> ->].
  apply setPairs_stored; [|done]. by apply setPairs_success.
Qed.

(** ** All provider tasks together *)

(** What the merging loop leaves at its own provider depends on what the
    aggregator held for that provider only. *)
Lemma setPairs_own agg1 agg2 P prices candles pairs :
  providerPrices agg1 !! P = providerPrices agg2 !! P →
  providerCandles agg1 !! P = providerCandles agg2 !! P →
  providerPrices (setPairs agg1 P prices candles pairs).1 !! P
    = providerPrices (setPairs agg2 P prices candles pairs).1 !! P
  ∧ providerCandles (setPairs agg1 P prices candles pairs).1 !! P
    = providerCandles (setPairs agg2 P prices candles pairs).1 !! P.
Proof.
  revert agg1 agg2. induction pairs as [|cp pairs IH]; intros agg1 agg2 Hp Hc.
  - done.
  - simpl. rewrite !SetProviderTickerPricesAndCandles_eq.
    destruct (bool_decide _ || bool_decide _); simpl.
    + apply IH; simpl; rewrite !store_lookup, !decide_True by done;
        by rewrite ?Hp, ?Hc.
    + rewrite !store_lookup, !decide_True by done. by rewrite Hp, Hc.
Qed.

Lemma providerTask_own agg1 agg2 P pairs o :
  providerPrices agg1 !! P = providerPrices agg2 !! P →
  providerCandles agg1 !! P = providerCandles agg2 !! P →
  providerPrices (providerTask agg1 P pairs o).1 !! P
    = providerPrices (providerTask agg2 P pairs o).1 !! P
  ∧ providerCandles (providerTask agg1 P pairs o).1 !! P
    = providerCandles (providerTask agg2 P pairs o).1 !! P.
Proof.
  intros Hp Hc. destruct o; simpl; [by apply setPairs_own|done|done].
Qed.

Lemma providerTask_other agg P pairs o Q :
  Q ≠ P →
  providerPrices (providerTask agg P pairs o).1 !! Q = providerPrices agg !! Q
  ∧ providerCandles (providerTask agg P pairs o).1 !! Q = providerCandles agg !! Q.
Proof.
  intros HQ. destruct o; simpl; [by apply setPairs_other|done|done].
Qed.

(** The tasks of a list with no provider twice: every provider's sub-maps
    are those its own task leaves. *)
Lemma runTasks_lookup fetch l : NoDup l.*1 → ∀ agg Q,
  (∀ pairs, (Q, pairs) ∈ l →
     providerPrices (runTasks fetch l agg) !! Q
       = providerPrices (providerTask agg Q pairs (fetch Q)).1 !! Q
     ∧ providerCandles (runTasks fetch l agg) !! Q
       = providerCandles (providerTask agg Q pairs (fetch Q)).1 !! Q)
  ∧ (Q ∉ l.*1 →
     providerPrices (runTasks fetch l agg) !! Q = providerPrices agg !! Q
     ∧ providerCandles (runTasks fetch l agg) !! Q = providerCandles agg !! Q).
Proof.
  induction l as [|[P ps] l IH]; intros Hnd agg Q.
  - split; [|done]. intros pairs Hin. by apply elem_of_nil in Hin.
  - rewrite fmap_cons in Hnd. simpl in Hnd.
    apply NoDup_cons in Hnd as [HP Hnd].
    change (runTasks fetch ((P, ps) :: l) agg)
      with (runTasks fetch l (providerTask agg P ps (fetch P)).1).
    destruct (IH Hnd (providerTask agg P ps (fetch P)).1 Q) as [IHin IHout].
    split.
    + intros pairs Hin. apply elem_of_cons in Hin as [[= -> ->]|Hin].
      * by apply IHout.
      * assert (Q ≠ P).
        { intros ->. apply HP. apply list_elem_of_fmap.
          by exists (P, pairs). }
        destruct (IHin pairs Hin) as [-> ->].
        apply providerTask_own; by apply providerTask_other.
    + rewrite fmap_cons. simpl. intros Hout.
      apply not_elem_of_cons in Hout as [HQ Hout].
      destruct (IHout Hout) as [-> ->]. by apply providerTask_other.
Qed.

Lemma fetchAll_runTasks pp fetch :
  fetchAll pp fetch = runTasks fetch (map_to_list pp) NewProviderAggregator.
Proof. reflexivity. Qed.

Lemma ProviderAggregator_eq (a b : ProviderAggregator) :
  (∀ Q, providerPrices a !! Q = providerPrices b !! Q
        ∧ providerCandles a !! Q = providerCandles b !! Q) →
  a = b.
Proof.
  intros H. destruct a as [pa ca], b as [pb cb]. simpl in H.
  f_equal; apply map_eq; intros Q; by destruct (H Q).
Qed.

(** X7. After all tasks, the aggregator holds for every configured provider
    exactly what that provider's task would leave on a fresh aggregator,
    and nothing for any other name: no provider's answer reaches another
    provider's prices or candles. *)
Theorem fetchAll_lookup providerPairs fetch Q :
  providerPrices (fetchAll providerPairs fetch) !! Q
    = (providerPairs !! Q ≫= λ currencyPairs,
         providerPrices
           (providerTask NewProviderAggregator Q currencyPairs (fetch Q)).1 !! Q)
  ∧ providerCandles (fetchAll providerPairs fetch) !! Q
    = (providerPairs !! Q ≫= λ currencyPairs,
         providerCandles
           (providerTask NewProviderAggregator Q currencyPairs (fetch Q)).1 !! Q).
Proof.
  rewrite fetchAll_runTasks.
  destruct (runTasks_lookup fetch (map_to_list providerPairs)
              (NoDup_fst_map_to_list providerPairs) NewProviderAggregator Q)
    as [Hin Hout].
  destruct (providerPairs !! Q) as [pairs|] eqn:HQ; simpl.
  - apply Hin. by apply elem_of_map_to_list.
  - destruct Hout as [-> ->]; [|done].
    intros Hel. apply list_elem_of_fmap in Hel as ([Q' ps] & -> & Hel).
    apply elem_of_map_to_list in Hel. simpl in HQ. congruence.
Qed.

(** X8. The aggregator after all tasks does not depend on the order in which
    the providers are taken: running the tasks over any arrangement of the
    configured providers gives the aggregator of [fetchAll]. *)
Theorem fetchAll_Permutation providerPairs fetch l :
  Permutation l (map_to_list providerPairs) →
  runTasks fetch l NewProviderAggregator = fetchAll providerPairs fetch.
Proof.
  intros Hperm. rewrite fetchAll_runTasks.
  assert (Hnd : NoDup l.*1).
  { rewrite Hperm. apply NoDup_fst_map_to_list. }
  apply ProviderAggregator_eq. intros Q.
  destruct (runTasks_lookup fetch l Hnd NewProviderAggregator Q) as [Hin Hout].
  destruct (runTasks_lookup fetch (map_to_list providerPairs)
              (NoDup_fst_map_to_list providerPairs) NewProviderAggregator Q)
    as [Hin' Hout'].
  destruct (decide (Q ∈ l.*1)) as [Hel|Hnel].
  - apply list_elem_of_fmap in Hel as ([Q' ps] & HQ & Hel). simpl in HQ.
    subst Q'. destruct (Hin ps Hel) as [-> ->].
    rewrite Hperm in Hel. by destruct (Hin' ps Hel) as [-> ->].
  - destruct (Hout Hnel) as [-> ->].
    rewrite Hperm in Hnel. by destruct (Hout' Hnel) as [-> ->].
Qed.

(** ** The tasks under any schedule *)

Lemma runCalls_cons c l agg :
  runCalls (c :: l) agg
  = runCalls l
      (SetProviderTickerPricesAndCandles agg (call_providerName c)
         (call_prices c) (call_candles c) (call_pair c)).1.
Proof. reflexivity. Qed.

Lemma runCalls_app l1 l2 agg :
  runCalls (l1 ++ l2) agg = runCalls l2 (runCalls l1 agg).
Proof. unfold runCalls. by rewrite foldl_app. Qed.

(** What a call returns does not depend on the aggregator. *)
Lemma Set_result p q P prices candles pair :
  (SetProviderTickerPricesAndCandles p P prices candles pair).2
  = (SetProviderTickerPricesAndCandles q P prices candles pair).2.
Proof. by rewrite !SetProviderTickerPricesAndCandles_eq. Qed.

(** What a call leaves at its own provider depends on what the aggregator
    held for that provider only. *)
Lemma Set_own p q P prices candles pair :
  providerPrices p !! P = providerPrices q !! P →
  providerCandles p !! P = providerCandles q !! P →
  providerPrices (SetProviderTickerPricesAndCandles p P prices candles pair).1 !! P
    = providerPrices (SetProviderTickerPricesAndCandles q P prices candles pair).1 !! P
  ∧ providerCandles (SetProviderTickerPricesAndCandles p P prices candles pair).1 !! P
    = providerCandles (SetProviderTickerPricesAndCandles q P prices candles pair).1 !! P.
Proof.
  intros Hp Hc. rewrite !SetProviderTickerPricesAndCandles_eq. simpl.
  rewrite !store_lookup, !decide_True by done. by rewrite Hp, Hc.
Qed.

(** Calls that are all of one provider. *)
Lemma runCalls_own P l : Forall (λ c, call_providerName c = P) l → ∀ p q,
  providerPrices p !! P = providerPrices q !! P →
  providerCandles p !! P = providerCandles q !! P →
  providerPrices (runCalls l p) !! P = providerPrices (runCalls l q) !! P
  ∧ providerCandles (runCalls l p) !! P = providerCandles (runCalls l q) !! P.
Proof.
  induction 1 as [|c l Hc Hl IH]; intros p q Hp Hq; [done|].
  rewrite !runCalls_cons, Hc. apply IH; by apply Set_own.
Qed.

(** A provider's sub-maps after a schedule are those its own calls leave. *)
Lemma runCalls_callsOf l : ∀ agg P,
  providerPrices (runCalls l agg) !! P
    = providerPrices (runCalls (callsOf P l) agg) !! P
  ∧ providerCandles (runCalls l agg) !! P
    = providerCandles (runCalls (callsOf P l) agg) !! P.
Proof.
  induction l as [|c l IH]; intros agg P; [done|].
  unfold callsOf. rewrite filter_cons. fold (callsOf P l).
  case_decide as Hc.
  - rewrite !runCalls_cons. apply IH.
  - rewrite runCalls_cons.
    destruct (IH (SetProviderTickerPricesAndCandles agg (call_providerName c)
                    (call_prices c) (call_candles c) (call_pair c)).1 P)
      as [-> ->].
    apply runCalls_own.
    + unfold callsOf. apply Forall_forall. intros d Hd.
      by apply list_elem_of_filter in Hd as [? _].
    + by apply Set_other.
    + by apply Set_other.
Qed.

(** Two schedules with the same calls of every provider, in the same
    order. *)
Lemma runCalls_callsOf_eq l l' agg :
  (∀ P, callsOf P l = callsOf P l') →
  runCalls l agg = runCalls l' agg.
Proof.
  intros Hsame. apply ProviderAggregator_eq. intros P.
  destruct (runCalls_callsOf l agg P) as [-> ->].
  destruct (runCalls_callsOf l' agg P) as [-> ->].
  by rewrite Hsame.
Qed.

(** X9. The aggregator after a sequence of calls depends, provider by
    provider, on the calls of that provider and their order only: two
    schedules in which every provider's calls come in the same order leave
    the same aggregator, however the calls of different providers are
    interleaved. *)
Theorem runCalls_interleaving l l' agg :
  (∀ providerName, callsOf providerName l = callsOf providerName l') →
  runCalls l agg = runCalls l' agg.
Proof. apply runCalls_callsOf_eq. Qed.

(** The merging loop of a task makes the calls of [pairCalls]. *)
Lemma setPairs_pairCalls P prices candles pairs : ∀ agg,
  (setPairs agg P prices candles pairs).1
  = runCalls (pairCalls P prices candles pairs) agg.
Proof.
  induction pairs as [|cp pairs IH]; intros agg; [done|].
  cbn [pairCalls setPairs]. rewrite runCalls_cons.
  cbn [call_providerName call_prices call_candles call_pair].
  rewrite (Set_result NewProviderAggregator agg).
  destruct (SetProviderTickerPricesAndCandles agg P prices candles cp)
    as [agg' [|]]; simpl; [apply IH|done].
Qed.

Lemma providerTask_taskCalls agg P pairs o :
  (providerTask agg P pairs o).1 = runCalls (taskCalls P pairs o) agg.
Proof. destruct o; simpl; [apply setPairs_pairCalls|done|done]. Qed.

Lemma pairCalls_provider P prices candles pairs :
  Forall (λ c, call_providerName c = P) (pairCalls P prices candles pairs).
Proof.
  induction pairs as [|cp pairs IH]; simpl; [constructor|].
  constructor; [done|]. by destruct (_.2).
Qed.

Lemma taskCalls_provider P pairs o :
  Forall (λ c, call_providerName c = P) (taskCalls P pairs o).
Proof. destruct o; simpl; [apply pairCalls_provider|constructor..]. Qed.

Lemma callsOf_all P l :
  Forall (λ c, call_providerName c = P) l → callsOf P l = l.
Proof.
  induction 1 as [|c l Hc Hl IH]; [done|].
  unfold callsOf. rewrite filter_cons, decide_True by done.
  fold (callsOf P l). by rewrite IH.
Qed.

Lemma callsOf_none P Q l :
  Q ≠ P → Forall (λ c, call_providerName c = Q) l → callsOf P l = [].
Proof.
  intros HQ. induction 1 as [|c l Hc Hl IH]; [done|].
  unfold callsOf. rewrite filter_cons, decide_False by congruence.
  apply IH.
Qed.

Lemma callsOf_app P l1 l2 :
  callsOf P (l1 ++ l2) = (callsOf P l1 ++ callsOf P l2)%list.
Proof. unfold callsOf. apply filter_app. Qed.

(** The tasks of a list run one after the other make the calls of the
    tasks, one task after the other. *)
Lemma runTasks_runCalls fetch l : ∀ agg,
  runTasks fetch l agg
  = runCalls (mjoin ((λ '(P, pairs), taskCalls P pairs (fetch P)) <$> l)) agg.
Proof.
  induction l as [|[P pairs] l IH]; intros agg; [done|].
  rewrite fmap_cons. simpl. rewrite runCalls_app, <- providerTask_taskCalls.
  apply IH.
Qed.

(** Of the calls of all tasks, those of one provider are the calls of its
    task. *)
Lemma callsOf_tasks fetch (l : list (string * list CurrencyPair)) P :
  NoDup l.*1 →
  callsOf P (mjoin ((λ '(Q, pairs), taskCalls Q pairs (fetch Q)) <$> l))
  = default [] ((λ pairs, taskCalls P pairs (fetch P)) <$> (list_to_map l : gmap string (list CurrencyPair)) !! P).
Proof.
  induction l as [|[Q pairs] l IH]; intros Hnd; [done|].
  rewrite fmap_cons in Hnd. simpl in Hnd. apply NoDup_cons in Hnd as [HQ Hnd].
  rewrite fmap_cons. simpl. rewrite callsOf_app, IH by done.
  destruct (decide (Q = P)) as [->|Hne].
  - rewrite lookup_insert_eq. simpl.
    rewrite callsOf_all by apply taskCalls_provider.
    apply not_elem_of_list_to_map_1 in HQ. rewrite HQ. simpl.
    by rewrite app_nil_r.
  - rewrite lookup_insert_ne by done.
    by rewrite (callsOf_none P Q) by (done || apply taskCalls_provider).
Qed.

(** X10. Every schedule of the tasks leaves the aggregator of [fetchAll]:
    when the calls made on a fresh aggregator are, for every configured
    provider, the calls of its task in their order, and no others, the
    aggregator at the end is the one the tasks leave when run one after the
    other, however the calls of different tasks were interleaved. *)
Theorem fetchAll_interleaving providerPairs fetch l :
  (∀ providerName,
     callsOf providerName l
     = default []
         ((λ currencyPairs,
             taskCalls providerName currencyPairs (fetch providerName))
          <$> providerPairs !! providerName)) →
  runCalls l NewProviderAggregator = fetchAll providerPairs fetch.
Proof.
  intros Hl. rewrite fetchAll_runTasks, runTasks_runCalls.
  apply runCalls_callsOf_eq. intros P.
  rewrite Hl, callsOf_tasks by apply NoDup_fst_map_to_list.
  by rewrite list_to_map_to_list.
Qed.

(** ** The stake-weighted prices *)

Lemma wrap64_is_int64 z : is_int64 (wrap64 z).
Proof.
  unfold is_int64, int64_min, int64_max, wrap64.
  pose proof (Z.mod_pos_bound (z + 2 ^ 63) (2 ^ 64)). lia.
Qed.

(** The total stake after the loop is the exact sum of the powers, brought
    into the range of an [int64]. *)
Lemma accumulate_wrap64 votes : ∀ t, is_int64 t →
  foldl (λ t v, wrap64 (t + Power (vote_Validator v))) t votes
  = wrap64 (t + totalPower votes).
Proof.
  induction votes as [|v votes IH]; intros t Ht; simpl.
  - rewrite Z.add_0_r. by rewrite wrap64_int64.
  - rewrite IH by apply wrap64_is_int64. rewrite wrap64_add_l. f_equal. lia.
Qed.

Lemma accumulatedPower_wrap64 votes :
  accumulatedPower votes = wrap64 (totalPower votes).
Proof.
  unfold accumulatedPower. rewrite accumulate_wrap64; [done|].
  unfold is_int64, int64_min, int64_max. lia.
Qed.

Lemma divideByStake_not_Err totalStake swp e :
  divideByStake totalStake swp ≠ Err e.
Proof.
  destruct (decide (totalStake = 0)) as [->|Hne].
  - unfold divideByStake. rewrite divide_fold_zero. by case_decide.
  - by rewrite divideByStake_nonzero.
Qed.

Lemma supportedBases_initPrices k base :
  initPrices (GetSupportedPairs k) !! base
  = if decide (base ∈ supportedBases k) then Some sdk.ZeroDec else None.
Proof.
  rewrite initPrices_GetSupportedPairs. unfold supportedBases. simpl.
  destruct (decide (base = "ATOM")) as [->|Hne].
  - rewrite lookup_singleton_eq. rewrite decide_True; [done|].
    by apply list_elem_of_singleton.
  - rewrite lookup_singleton_ne by done. rewrite decide_False; [done|].
    by rewrite list_elem_of_singleton.
Qed.

Section Totals.

Context `{!JSON}.

(** The loop over votes that all decode: every running total grows by the
    sum of price times power, and no base is added or dropped. *)
Lemma votesLoop_totals votes : allDecode votes → ∀ swp totalStake,
  ∃ swp',
    votesLoop votes swp totalStake =
      Ok (swp',
          foldl (λ t v, wrap64 (t + Power (vote_Validator v))) totalStake votes)
    ∧ ∀ base,
        swp' !! base = (λ cur, cur + weightedTotal base votes) <$> swp !! base.
Proof.
  induction votes as [|v votes IH]; intros Hall swp totalStake; simpl.
  - exists swp. split; [done|]. intros base.
    destruct (swp !! base); simpl; [|done]. f_equal. lia.
  - apply allDecode_cons in Hall as [[voteExt Hv] Hall]. rewrite Hv.
    destruct (IH Hall
                (addVotePrices (Power (vote_Validator v)) (Prices voteExt) swp)
                (wrap64 (totalStake + Power (vote_Validator v))))
      as (swp' & Hloop & Hlook).
    exists swp'. split; [done|]. intros base.
    rewrite Hlook, addVotePrices_lookup. unfold votePrice. rewrite Hv.
    unfold sdk.Add, sdk.MulInt64.
    destruct (swp !! base) as [cur|]; simpl; [|done]. f_equal.
    destruct (Prices voteExt !! base); simpl; lia.
Qed.

(** The loop stops with an error at the first vote that does not decode,
    and at no other place. *)
Lemma votesLoop_Err votes e : ∀ swp totalStake,
  votesLoop votes swp totalStake = Err e →
  ∃ (before : list ExtendedVoteInfo) v after,
    votes = (before ++ v :: after)%list
    ∧ allDecode before
    ∧ Unmarshal_OracleVoteExtension (VoteExtension v) = Err e.
Proof.
  induction votes as [|v votes IH]; intros swp totalStake; simpl; [done|].
  destruct (Unmarshal_OracleVoteExtension (VoteExtension v)) as [ext|e'|p] eqn:Hv.
  - intros Hloop. destruct (IH _ _ Hloop) as (before & w & after & -> & Hall & Hw).
    exists (v :: before), w, after. split_and!; [done| |done].
    apply allDecode_cons. split; [by eexists|done].
  - intros [= ->]. exists [], v, votes. split_and!; [done| |done]. constructor.
  - done.
Qed.

(** The function on votes that all decode: the dividing loop, run with the
    accumulated stake on the totals of the supported bases. *)
Lemma computeStakeWeightedOraclePrices_totals h ci :
  allDecode (Votes ci) →
  ∃ totals,
    computeStakeWeightedOraclePrices h ci
      = divideByStake (wrap64 (totalPower (Votes ci))) totals
    ∧ ∀ base,
        totals !! base
        = if decide (base ∈ supportedBases (fauxOracleKeeper h))
          then Some (weightedTotal base (Votes ci))
          else None.
Proof.
  intros Hall. unfold computeStakeWeightedOraclePrices.
  destruct (votesLoop_totals (Votes ci) Hall
              (initPrices (GetSupportedPairs (fauxOracleKeeper h))) 0)
    as (swp' & -> & Hlook).
  fold (accumulatedPower (Votes ci)). rewrite accumulatedPower_wrap64.
  exists swp'. split; [done|]. intros base.
  rewrite Hlook, supportedBases_initPrices. by case_decide.
Qed.

Lemma divideByStake_lookup totalStake totals :
  totalStake ≠ 0 →
  ∃ swp,
    divideByStake totalStake totals = Ok swp
    ∧ ∀ base, swp !! base = totals !! base ≫= λ t, sdk.QuoInt64 t totalStake.
Proof.
  intros Hne. rewrite divideByStake_nonzero by done.
  eexists. split; [done|]. intros base. rewrite lookup_fmap.
  destruct (totals !! base); simpl; [|done].
  unfold sdk.QuoInt64. by rewrite decide_False by done.
Qed.

(** X11. When every vote decodes and the accumulated stake, the exact sum of
    the powers brought into the range of an [int64], is not zero, the
    function returns a price for the supported bases and no other: for each
    of them the sum over the votes of the attested price times the voting
    power (a vote without a price for the base counting as zero), divided by
    the accumulated stake. *)
Theorem computeStakeWeightedOraclePrices_mean h ci :
  allDecode (Votes ci) →
  wrap64 (totalPower (Votes ci)) ≠ 0 →
  ∃ swp,
    computeStakeWeightedOraclePrices h ci = Ok swp
    ∧ ∀ base,
        swp !! base
        = if decide (base ∈ supportedBases (fauxOracleKeeper h))
          then sdk.QuoInt64 (weightedTotal base (Votes ci))
                 (wrap64 (totalPower (Votes ci)))
          else None.
Proof.
  intros Hall Hne.
  destruct (computeStakeWeightedOraclePrices_totals h ci Hall)
    as (totals & -> & Htotals).
  destruct (divideByStake_lookup _ totals Hne) as (swp & -> & Hlook).
  exists swp. split; [done|]. intros base.
  rewrite Hlook, Htotals. by case_decide.
Qed.

Lemma weightedTotal_between base lo hi votes :
  Forall (λ v, 0 < Power (vote_Validator v) ∧ lo ≤ votePrice base v ≤ hi) votes →
  lo * totalPower votes ≤ weightedTotal base votes ≤ hi * totalPower votes
  ∧ 0 ≤ totalPower votes
  ∧ (votes ≠ [] → 0 < totalPower votes).
Proof.
  induction 1 as [|v votes [Hpos Hv] Hall IH]; simpl.
  - split_and!; try lia. done.
  - destruct IH as (IH1 & IH2 & _). split_and!; nia.
Qed.

(** X12. When there are votes, every vote decodes, every voting power is
    positive, their sum fits an [int64] and every vote attests a price for a
    supported base between [lo] and [hi], the price returned for that base
    lies between [lo] and [hi] too. *)
Theorem computeStakeWeightedOraclePrices_between h ci base lo hi :
  base ∈ supportedBases (fauxOracleKeeper h) →
  Votes ci ≠ [] →
  allDecode (Votes ci) →
  Forall (λ v, 0 < Power (vote_Validator v) ∧ lo ≤ votePrice base v ≤ hi)
    (Votes ci) →
  totalPower (Votes ci) ≤ int64_max →
  ∃ swp price,
    computeStakeWeightedOraclePrices h ci = Ok swp
    ∧ swp !! base = Some price
    ∧ lo ≤ price ≤ hi.
Proof.
  intros Hbase Hne Hall Hvotes Hmax.
  destruct (weightedTotal_between base lo hi (Votes ci) Hvotes)
    as (Hbetween & _ & Hpos). specialize (Hpos Hne).
  assert (Hw : wrap64 (totalPower (Votes ci)) = totalPower (Votes ci)).
  { apply wrap64_int64. unfold is_int64, int64_min in *. lia. }
  destruct (computeStakeWeightedOraclePrices_totals h ci Hall)
    as (totals & -> & Htotals).
  destruct (divideByStake_lookup (wrap64 (totalPower (Votes ci))) totals)
    as (swp & -> & Hlook); [lia|].
  exists swp, (Z.quot (weightedTotal base (Votes ci)) (totalPower (Votes ci))).
  split_and!; [done| | |].
  - rewrite Hlook, Htotals, decide_True by done. simpl. rewrite Hw.
    unfold sdk.QuoInt64. by rewrite decide_False by lia.
  - rewrite <- (Z.quot_mul lo (totalPower (Votes ci))) by lia.
    apply Z.quot_le_mono; lia.
  - rewrite <- (Z.quot_mul hi (totalPower (Votes ci))) by lia.
    apply Z.quot_le_mono; lia.
Qed.

Lemma weightedTotal_Forall2 base votes votes' :
  Forall2 (λ v v', Power (vote_Validator v) = Power (vote_Validator v')
                   ∧ votePrice base v = votePrice base v') votes votes' →
  weightedTotal base votes = weightedTotal base votes'
  ∧ totalPower votes = totalPower votes'.
Proof.
  induction 1 as [|v v' votes votes' [Hp Hv] Hall [IH1 IH2]]; simpl; [done|].
  by rewrite Hp, Hv, IH1, IH2.
Qed.

(** X13. Of a commit-info the function reads the voting power of every vote
    and the price its extension has for the supported bases, and nothing
    else: two lists of votes that decode and agree, vote by vote, in these
    give the same result, whatever the handlers, the rounds, the validator
    addresses, the heights the extensions declare and their prices for other
    bases. *)
Theorem computeStakeWeightedOraclePrices_reads h h' ci ci' :
  Forall2
    (λ v v',
       Power (vote_Validator v) = Power (vote_Validator v')
       ∧ is_Ok (Unmarshal_OracleVoteExtension (VoteExtension v))
       ∧ is_Ok (Unmarshal_OracleVoteExtension (VoteExtension v'))
       ∧ ∀ base, base ∈ supportedBases (fauxOracleKeeper h) →
           votePrice base v = votePrice base v')
    (Votes ci) (Votes ci') →
  computeStakeWeightedOraclePrices h ci = computeStakeWeightedOraclePrices h' ci'.
Proof.
  intros Hvotes.
  assert (Hall : allDecode (Votes ci)).
  { unfold allDecode. eapply Forall2_Forall_l; [exact Hvotes|].
    apply Forall_true. by intros v v' (_ & ? & _). }
  assert (Hall' : allDecode (Votes ci')).
  { unfold allDecode. eapply Forall2_Forall_r; [exact Hvotes|].
    apply Forall_true. by intros v v' (_ & _ & ? & _). }
  assert (Hpower : totalPower (Votes ci) = totalPower (Votes ci')).
  { eapply (weightedTotal_Forall2 "ATOM"), Forall2_impl; [exact Hvotes|].
    intros v v' (Hp & _ & _ & Hv). split; [done|]. apply Hv.
    unfold supportedBases. simpl. by apply list_elem_of_singleton. }
  unfold computeStakeWeightedOraclePrices.
  destruct (votesLoop_totals (Votes ci) Hall
              (initPrices (GetSupportedPairs (fauxOracleKeeper h))) 0)
    as (swp1 & -> & Hlook1).
  destruct (votesLoop_totals (Votes ci') Hall'
              (initPrices (GetSupportedPairs (fauxOracleKeeper h'))) 0)
    as (swp2 & -> & Hlook2).
  fold (accumulatedPower (Votes ci)). fold (accumulatedPower (Votes ci')).
  rewrite !accumulatedPower_wrap64, Hpower. f_equal.
  apply map_eq. intros base. rewrite Hlook1, Hlook2.
  rewrite !supportedBases_initPrices.
  change (supportedBases (fauxOracleKeeper h'))
    with (supportedBases (fauxOracleKeeper h)).
  case_decide as Hbase; [|done]. simpl. do 2 f_equal.
  eapply weightedTotal_Forall2, Forall2_impl; [exact Hvotes|].
  intros v v' (Hp & _ & _ & Hv). split; [done|]. by apply Hv.
Qed.

(** X14. The function returns an error exactly when a vote does not decode:
    the error is the decoder's, of the first such vote. The voting powers
    play no part, and a vote after the first that fails is not looked at. *)
Theorem computeStakeWeightedOraclePrices_error h ci e :
  computeStakeWeightedOraclePrices h ci = Err e
  ↔ ∃ (before : list ExtendedVoteInfo) v after,
      Votes ci = (before ++ v :: after)%list
      ∧ allDecode before
      ∧ Unmarshal_OracleVoteExtension (VoteExtension v) = Err e.
Proof.
  split.
  - unfold computeStakeWeightedOraclePrices.
    destruct (votesLoop _ _ _) as [[swp t]|e'|p] eqn:Hloop.
    + intros Hd. by apply divideByStake_not_Err in Hd.
    + intros [= ->]. by apply votesLoop_Err in Hloop.
    + done.
  - intros (before & v & after & Hvotes & Hall & Hv).
    by apply (computeStakeWeightedOraclePrices_decode_error h ci before v after).
Qed.

End Totals.

(** ** The proposal handlers, further *)

Section ProposalsMore.

Context `{!JSON}.

Lemma votesLoop_Ok votes : ∀ swp totalStake r,
  votesLoop votes swp totalStake = Ok r → allDecode votes.
Proof.
  induction votes as [|v votes IH]; intros swp totalStake r; simpl.
  - intros _. constructor.
  - destruct (Unmarshal_OracleVoteExtension (VoteExtension v)) as [ext|e|p] eqn:Hv;
      [|done|done].
    intros Hloop. apply allDecode_cons. split; [by eexists|]. eauto.
Qed.

(** The function returns prices exactly when every vote decodes and the
    accumulated stake is not zero. *)
Lemma computeStakeWeightedOraclePrices_Ok_iff h ci :
  is_Ok (computeStakeWeightedOraclePrices h ci)
  ↔ allDecode (Votes ci) ∧ accumulatedPower (Votes ci) ≠ 0.
Proof.
  split.
  - intros [swp Hswp]. unfold computeStakeWeightedOraclePrices in Hswp.
    destruct (votesLoop _ _ _) as [[swp' t]|e|p] eqn:Hloop; [|done|done].
    pose proof (votesLoop_Ok _ _ _ _ Hloop) as Hall. split; [done|].
    destruct (votesLoop_allDecode (Votes ci) Hall
                (initPrices (GetSupportedPairs (fauxOracleKeeper h))) 0)
      as (swp'' & Hloop' & Hempty).
    rewrite Hloop in Hloop'. injection Hloop' as -> ->.
    intros Hzero. fold (accumulatedPower (Votes ci)) in Hswp.
    rewrite Hzero, divideByStake_zero in Hswp; [done|].
    rewrite Hempty, initPrices_GetSupportedPairs. apply insert_non_empty.
  - intros [Hall Hne]. by apply computeStakeWeightedOraclePrices_nonzero.
Qed.

(** The function reads the votes of the commit-info, and of the handler
    nothing. *)
Lemma computeStakeWeightedOraclePrices_Votes h h' ci ci' :
  Votes ci = Votes ci' →
  computeStakeWeightedOraclePrices h ci = computeStakeWeightedOraclePrices h' ci'.
Proof. unfold computeStakeWeightedOraclePrices. by intros ->. Qed.

(** X15. The verdict of ProcessProposal. It accepts exactly the proposals
    with no transaction and those whose first transaction decodes to a
    record in whose commit-info every vote decodes and the accumulated
    stake is not zero; it rejects exactly those whose first transaction
    does not decode, or decodes to a record whose recomputation returns an
    error. The claimed prices and the transactions after the first play no
    part. *)
Theorem ProcessProposal_accepts_iff h req :
  (proposalStatus (ProcessProposal h req) = Some ResponseProcessProposal_ACCEPT
   ↔ Txs req = []
     ∨ ∃ tx0 rest injectedVoteExtTx,
         Txs req = tx0 :: rest
         ∧ Unmarshal_StakeWeightedPrices tx0 = Ok injectedVoteExtTx
         ∧ allDecode (Votes (swp_ExtendedCommitInfo injectedVoteExtTx))
         ∧ accumulatedPower (Votes (swp_ExtendedCommitInfo injectedVoteExtTx))
           ≠ 0)
  ∧ (proposalStatus (ProcessProposal h req) = Some ResponseProcessProposal_REJECT
     ↔ ∃ tx0 rest,
         Txs req = tx0 :: rest
         ∧ (is_Err (Unmarshal_StakeWeightedPrices tx0)
            ∨ ∃ injectedVoteExtTx,
                Unmarshal_StakeWeightedPrices tx0 = Ok injectedVoteExtTx
                ∧ is_Err (computeStakeWeightedOraclePrices h
                            (swp_ExtendedCommitInfo injectedVoteExtTx)))).
Proof.
  destruct (Txs req) as [|tx0 rest] eqn:Htxs.
  - rewrite (ProcessProposal_empty h req Htxs). simpl. split.
    + split; [by left|done].
    + split; [done|]. by intros (? & ? & ? & _).
  - destruct (Unmarshal_StakeWeightedPrices tx0) as [inj|e|p] eqn:Hdec.
    + rewrite (ProcessProposal_decoded h req tx0 rest inj Htxs Hdec).
      pose proof (computeStakeWeightedOraclePrices_Ok_iff h
                    (swp_ExtendedCommitInfo inj)) as Hok.
      destruct (computeStakeWeightedOraclePrices h (swp_ExtendedCommitInfo inj))
        as [swp|e|p] eqn:Hc; simpl.
      * split.
        -- split; [|done]. intros _. right. exists tx0, rest, inj.
           rewrite Hdec. split_and!; [done|done|apply Hok; by eexists..].
        -- split; [done|]. intros (t & r & [= <- <-] & [[e He]|(i & Hi & [e He])]).
           ++ congruence.
           ++ rewrite Hdec in Hi. injection Hi as <-. congruence.
      * split.
        -- split; [done|]. intros [|(t & r & i & [= <- <-] & Hi & Hall & Hne)]; [done|].
           rewrite Hdec in Hi. injection Hi as <-.
           destruct (proj2 Hok (conj Hall Hne)) as [swp Hswp]. congruence.
        -- split; [|done]. intros _. exists tx0, rest. split; [done|]. right.
           exists inj. rewrite Hdec. split; [done|]. by exists e.
      * split.
        -- split; [done|]. intros [|(t & r & i & [= <- <-] & Hi & Hall & Hne)]; [done|].
           rewrite Hdec in Hi. injection Hi as <-.
           destruct (proj2 Hok (conj Hall Hne)) as [swp Hswp]. congruence.
        -- split; [done|]. intros (t & r & [= <- <-] & [[e He]|(i & Hi & [e He])]).
           ++ congruence.
           ++ rewrite Hdec in Hi. injection Hi as <-. congruence.
    + assert (Hp : ProcessProposal h req
                   = Returned (h, {| Status := ResponseProcessProposal_REJECT |})).
      { unfold ProcessProposal. by rewrite Htxs, Hdec. }
      rewrite Hp. simpl. split.
      * split; [done|]. intros [|(t & r & i & [= <- <-] & Hi & _)]; [done|].
        congruence.
      * split; [|done]. intros _. exists tx0, rest. split; [done|]. left.
        rewrite Hdec. by exists e.
    + assert (Hp : ProcessProposal h req = Panicked p).
      { unfold ProcessProposal. by rewrite Htxs, Hdec. }
      rewrite Hp. simpl. split.
      * split; [done|]. intros [|(t & r & i & [= <- <-] & Hi & _)]; [done|].
        congruence.
      * split; [done|]. intros (t & r & [= <- <-] & [[e He]|(i & Hi & _)]);
          congruence.
Qed.

(** X16. A proposal a proposer prepared is accepted: when PrepareProposal
    returned the injected transaction and a validator decodes it to a record
    with the same votes, ProcessProposal of that validator accepts the
    proposal, whatever transactions follow the injected one. *)
Theorem ProcessProposal_accepts_prepared h h' req bz rest injectedVoteExtTx :
  PrepareProposal h req = Returned {| pp_Txs := [bz] |} →
  Unmarshal_StakeWeightedPrices bz = Ok injectedVoteExtTx →
  Votes (swp_ExtendedCommitInfo injectedVoteExtTx) = Votes (LocalLastCommit req) →
  ProcessProposal h' {| Txs := bz :: rest |}
  = Returned (h', {| Status := ResponseProcessProposal_ACCEPT |}).
Proof.
  intros Hprep Hdec Hvotes.
  rewrite (ProcessProposal_decoded h' {| Txs := bz :: rest |} bz rest
             injectedVoteExtTx eq_refl Hdec).
  rewrite (computeStakeWeightedOraclePrices_Votes h' h _ (LocalLastCommit req))
    by done.
  unfold PrepareProposal in Hprep.
  destruct (computeStakeWeightedOraclePrices h (LocalLastCommit req));
    [done|discriminate Hprep|discriminate Hprep].
Qed.

Lemma computeStakeWeightedOraclePrices_Panic h ci :
  allDecode (Votes ci) →
  accumulatedPower (Votes ci) = 0 →
  computeStakeWeightedOraclePrices h ci = Panic PanicDivisionByZero.
Proof.
  intros Hall Hzero. unfold computeStakeWeightedOraclePrices.
  destruct (votesLoop_allDecode (Votes ci) Hall
              (initPrices (GetSupportedPairs (fauxOracleKeeper h))) 0)
    as (swp' & -> & Hempty).
  fold (accumulatedPower (Votes ci)). rewrite Hzero.
  apply divideByStake_zero. rewrite Hempty, initPrices_GetSupportedPairs.
  apply insert_non_empty.
Qed.

(** X17. Both proposal handlers end in the panic of the division by zero on
    a commit-info whose votes all decode and whose accumulated stake is
    zero, as with no votes: PrepareProposal on the local last commit, and
    ProcessProposal on the commit-info of the record the first transaction
    decodes to, whatever prices the record claims and whatever transactions
    follow. *)
Theorem ProposalHandler_zero_stake h ci :
  allDecode (Votes ci) →
  accumulatedPower (Votes ci) = 0 →
  PrepareProposal h {| LocalLastCommit := ci |} = Panicked PanicDivisionByZero
  ∧ ∀ tx0 rest claimed,
      Unmarshal_StakeWeightedPrices tx0
        = Ok {| swp_StakeWeightedPrices := claimed;
                swp_ExtendedCommitInfo := ci |} →
      ProcessProposal h {| Txs := tx0 :: rest |}
      = Panicked PanicDivisionByZero.
Proof.
  intros Hall Hzero.
  pose proof (computeStakeWeightedOraclePrices_Panic h ci Hall Hzero) as Hp.
  split.
  - unfold PrepareProposal. simpl. by rewrite Hp.
  - intros tx0 rest claimed Hdec.
    rewrite (ProcessProposal_decoded h {| Txs := tx0 :: rest |} tx0 rest _
               eq_refl Hdec). simpl. by rewrite Hp.
Qed.

(** X18. What PrepareProposal injects. When every vote of the local last
    commit decodes and the accumulated stake is not zero, the response has
    the one transaction that encodes the record of the stake-weighted
    prices, by the formula of the mean, and of the commit-info as it came;
    it has no transaction if the record does not encode. *)
Theorem PrepareProposal_injects h req :
  let ci := LocalLastCommit req in
  allDecode (Votes ci) →
  wrap64 (totalPower (Votes ci)) ≠ 0 →
  ∃ swp,
    (∀ base,
       swp !! base
       = if decide (base ∈ supportedBases (fauxOracleKeeper h))
         then sdk.QuoInt64 (weightedTotal base (Votes ci))
                (wrap64 (totalPower (Votes ci)))
         else None)
    ∧ PrepareProposal h req
      = match Marshal_StakeWeightedPrices
                {| swp_StakeWeightedPrices := swp;
                   swp_ExtendedCommitInfo := ci |} with
        | Ok bz => Returned {| pp_Txs := [bz] |}
        | Err _ => Returned {| pp_Txs := [] |}
        | Panic p => Panicked p
        end.
Proof.
  intros ci Hall Hne.
  destruct (computeStakeWeightedOraclePrices_totals h ci Hall)
    as (totals & Hswp & Htotals).
  destruct (divideByStake_lookup _ totals Hne) as (swp & Hdiv & Hlook).
  exists swp. split.
  - intros base. rewrite Hlook, Htotals. by case_decide.
  - unfold PrepareProposal. fold ci. rewrite Hswp, Hdiv.
    by destruct (Marshal_StakeWeightedPrices _).
Qed.



End ProposalsMore.

(** ** The vote-extension handlers, further *)

Section VoteExtensionsMore.

Context `{!JSON}.

(** X21. What ExtendVote does to the handler, whatever the price
    computation. On every path it records the height and the time of the
    call and leaves the timeout, the configured pairs and the keeper alone;
    it never touches the prices cached under another height; when it
    returns no response it caches nothing; and when it returns a response
    the prices cached under the request's height are those the returned
    bytes encode, at that height. *)
Theorem ExtendVoteHandler_state compute h now fetch req :
  let r := ExtendVoteHandler_with compute h now fetch req in
  currentBlock r.1 = ev_Height req
  ∧ lastPriceSyncTS r.1 = now
  ∧ providerTimeout r.1 = providerTimeout h
  ∧ providerPairs r.1 = providerPairs h
  ∧ FauxOracleKeeper_ r.1 = FauxOracleKeeper_ h
  ∧ (∀ height, height ≠ ev_Height req →
       computedPrices r.1 !! height = computedPrices h !! height)
  ∧ (¬ is_Ok r.2 → computedPrices r.1 = computedPrices h)
  ∧ (∀ resp, r.2 = Ok resp →
       ∃ computed,
         computedPrices r.1 !! ev_Height req = Some computed
         ∧ Marshal_OracleVoteExtension
             {| Height := ev_Height req; Prices := computed |}
           = Ok (ev_VoteExtension resp)).
Proof.
  intros r. subst r. unfold ExtendVoteHandler_with. simpl.
  destruct (compute _ _) as [computed [err|]].
  { simpl. split_and!; try done. }
  destruct (list_find _ _) as [[i b]|].
  { simpl. split_and!; try done. }
  destruct (Marshal_OracleVoteExtension _) as [bz|e|p] eqn:Hm;
    simpl; split_and!; try done.
  - intros height Hne. by rewrite lookup_insert_ne.
  - intros Hno. destruct Hno. by eexists.
  - intros resp [= <-]. exists computed. by rewrite lookup_insert_eq.
Qed.

(** X22. The errors of ExtendVote. An error of the price computation is
    returned as it is, before the prices are looked at; otherwise the error
    is that of a missing price, naming a required base the computed map has
    no price for, or, when no required base is missing, the encoder's error
    wrapped. *)
Theorem ExtendVoteHandler_errors compute h now fetch req :
  let h0 := startExtendVote h now req in
  let c := compute h0 (fetchAll (providerPairs h) fetch) in
  let r := ExtendVoteHandler_with compute h now fetch req in
  (∀ err, c.2 = Some err → r = (h0, Err err))
  ∧ (∀ e, c.2 = None → r.2 = Err e →
       (∃ base, e = ErrFindPrice base
          ∧ base ∈ requiredRates (providerPairs h)
          ∧ c.1 !! base = None)
       ∨ (∃ cause, e = ErrMarshalVoteExt cause
            ∧ (∀ base, base ∈ requiredRates (providerPairs h) →
                 is_Some (c.1 !! base))
            ∧ Marshal_OracleVoteExtension
                {| Height := ev_Height req; Prices := c.1 |} = Err cause)).
Proof.
  intros h0 c r. subst h0 c r. unfold ExtendVoteHandler_with. simpl.
  destruct (compute _ _) as [computed [err|]]; simpl.
  { split; [by intros ? [= <-]|done]. }
  split; [done|]. intros e _.
  destruct (list_find _ _) as [[i b]|] eqn:Hf; simpl.
  - intros [= <-]. left. exists b.
    apply list_find_Some in Hf as (Hi & Hb & _).
    apply list_elem_of_lookup_2, elem_of_elements in Hi. done.
  - destruct (Marshal_OracleVoteExtension _) as [bz|e'|p] eqn:Hm; simpl;
      [done| |done].
    intros [= <-]. right. exists e'. split_and!; [done| |done].
    intros base Hbase. apply list_find_None in Hf. rewrite Forall_forall in Hf.
    apply elem_of_elements, Hf in Hbase.
    by destruct (computed !! base); [eauto|].
Qed.

Lemma elem_of_requiredRates providerPairs base :
  base ∈ requiredRates providerPairs
  ↔ ∃ providerName currencyPairs cp,
      providerPairs !! providerName = Some currencyPairs
      ∧ cp ∈ currencyPairs
      ∧ Base cp = base.
Proof.
  unfold requiredRates. rewrite elem_of_list_to_set, list_elem_of_fmap.
  split.
  - intros (cp & -> & Hcp). apply list_elem_of_join in Hcp as (pairs & Hcp & Hpairs).
    apply list_elem_of_fmap in Hpairs as ([P ps] & -> & Hin).
    apply elem_of_map_to_list in Hin. by exists P, ps, cp.
  - intros (P & ps & cp & HP & Hcp & <-). exists cp. split; [done|].
    apply list_elem_of_join. exists ps. split; [done|].
    apply list_elem_of_fmap. exists (P, ps). split; [done|].
    by apply elem_of_map_to_list.
Qed.

(** X23. When ExtendVote responds. Whatever the price computation, the
    handler returns a response exactly when the computation returns no
    error, the computed map has a price for the base of every pair
    configured for any provider (also of a provider whose fetch failed), and
    the extension of the request's height and the computed map encodes; the
    response carries those bytes. *)
Theorem ExtendVoteHandler_responds_iff compute h now fetch req bz :
  (ExtendVoteHandler_with compute h now fetch req).2
    = Ok {| ev_VoteExtension := bz |}
  ↔ ∃ computed,
      compute (startExtendVote h now req) (fetchAll (providerPairs h) fetch)
        = (computed, None)
      ∧ (∀ providerName currencyPairs cp,
           providerPairs h !! providerName = Some currencyPairs →
           cp ∈ currencyPairs →
           is_Some (computed !! Base cp))
      ∧ Marshal_OracleVoteExtension
          {| Height := ev_Height req; Prices := computed |} = Ok bz.
Proof.
  split.
  - intros Hr.
    destruct (ExtendVoteHandler_with compute h now fetch req) as [h' r] eqn:He.
    simpl in Hr. subst r.
    apply ExtendVoteHandler_payload_inv in He as (computed & Hc & Hall & Hm & _).
    exists computed. split_and!; [done| |done].
    intros P ps cp HP Hcp. apply Hall, elem_of_requiredRates. by exists P, ps, cp.
  - intros (computed & Hc & Hall & Hm).
    rewrite (ExtendVoteHandler_with_payload compute h now fetch req computed bz);
      [done|done| |done].
    intros base Hbase.
    apply elem_of_requiredRates in Hbase as (P & ps & cp & HP & Hcp & <-).
    by apply (Hall P ps cp).
Qed.

(** X24. A validator's own extension verifies at its height and at no
    other. With an encoding that reads back what it wrote, the bytes
    ExtendVote returned for an [int64] height are accepted by
    VerifyVoteExtension, of any validator, for a request of that height,
    and refused with the error of a height mismatch for any other. *)
Theorem VerifyVoteExtensionHandler_own_extension
    compute h now fetch req h' resp verifier height address :
  (∀ v bz, is_int64 (Height v) →
     Marshal_OracleVoteExtension v = Ok bz →
     Unmarshal_OracleVoteExtension bz = Ok v) →
  is_int64 (ev_Height req) →
  ExtendVoteHandler_with compute h now fetch req = (h', Ok resp) →
  VerifyVoteExtensionHandler verifier
    {| vv_Height := height;
       vv_VoteExtension := ev_VoteExtension resp;
       vv_ValidatorAddress := address |}
  = if decide (height = ev_Height req)
    then Ok {| vv_Status := ResponseVerifyVoteExtension_ACCEPT |}
    else Err (ErrHeightMismatch height (ev_Height req)).
Proof.
  intros Hround Hheight Hext. destruct resp as [bz].
  apply ExtendVoteHandler_payload_inv in Hext
    as (computed & _ & _ & Hm & _).
  apply Hround in Hm; [|done].
  unfold VerifyVoteExtensionHandler. simpl. rewrite Hm. simpl.
  destruct (decide (height = ev_Height req)) as [->|Hne].
  - by rewrite decide_False by (intros Hc; by apply Hc).
  - by rewrite decide_True by congruence.
Qed.

End VoteExtensionsMore.

(** ** Further scenarios, run on the reference wire format *)

Module MoreScenarios.

Import Examples MoreExamples.

#[local] Existing Instance GoJSON.codec.

(** A price from binance and candles from kraken, merged in either order. *)
Lemma SetProviderTickerPricesAndCandles_comm_witness :
  let set1 a :=
    SetProviderTickerPricesAndCandles a "binance"
      {[ "ATOMUSD" := ticker ]} ∅ ATOMUSD in
  let set2 a :=
    SetProviderTickerPricesAndCandles a "kraken"
      ∅ {[ "ATOMUSD" := [candle] ]} ATOMUSD in
  (set2 (set1 NewProviderAggregator).1).1 = (set1 (set2 NewProviderAggregator).1).1
  ∧ (set1 (set2 NewProviderAggregator).1).2 = (set1 NewProviderAggregator).2
  ∧ (set2 (set1 NewProviderAggregator).1).2 = (set2 NewProviderAggregator).2.
Proof.
  apply (SetProviderTickerPricesAndCandles_comm NewProviderAggregator
           "binance" {[ "ATOMUSD" := ticker ]} ∅ ATOMUSD
           "kraken" ∅ {[ "ATOMUSD" := [candle] ]} ATOMUSD).
  discriminate.
Defined.

(** A response for ATOM/USD that has nothing for BTC/USD: the task fails at
    BTC/USD and the price of ATOM stays in the aggregator. *)
Lemma providerTask_missing_witness :
  let r :=
    providerTask NewProviderAggregator "binance"
      [ATOMUSD; {| Base := "BTC"; Quote := "USD" |}; {| Base := "ETH"; Quote := "USD" |}]
      (FetchDone {[ "ATOMUSD" := ticker ]} ∅) in
  r.2 = Some ErrNoExchangeRates
  ∧ priceAt r.1 "binance" "ATOM" = Some ticker
  ∧ priceAt r.1 "binance" "ETH" = None.
Proof.
  intros r.
  destruct (providerTask_missing NewProviderAggregator "binance"
              {[ "ATOMUSD" := ticker ]} ∅
              [ATOMUSD] {| Base := "BTC"; Quote := "USD" |}
              [{| Base := "ETH"; Quote := "USD" |}]) as (Herr & Hat & _).
  - intros c Hc. apply list_elem_of_singleton in Hc as ->. left.
    eexists. vm_compute. reflexivity.
  - reflexivity.
  - reflexivity.
  - split_and!; [exact Herr| |].
    + etrans; [exact (proj1 (Hat "binance" "ATOM"))|]. vm_compute. reflexivity.
    + etrans; [exact (proj1 (Hat "binance" "ETH"))|]. vm_compute. reflexivity.
Defined.

(** Two providers taken in the order binance, kraken, which is not the one
    [fetchAll] takes them in. *)
Lemma fetchAll_Permutation_witness :
  runTasks fetch_binance
    [("binance", [ATOMUSD]); ("kraken", [ATOMUSD])] NewProviderAggregator
  = fetchAll twoProviders fetch_binance
  ∧ (map_to_list twoProviders).*1 = ["kraken"; "binance"].
Proof.
  split; [|vm_compute; reflexivity].
  apply fetchAll_Permutation.
  assert (Hl : map_to_list twoProviders
               = [("kraken", [ATOMUSD]); ("binance", [ATOMUSD])]).
  { vm_compute. reflexivity. }
  rewrite Hl. apply perm_swap.
Defined.

(** Two schedules of the same three calls, the two of binance in the same
    order. *)
Lemma runCalls_interleaving_witness :
  runCalls schedule NewProviderAggregator
  = runCalls schedule' NewProviderAggregator.
Proof.
  apply runCalls_interleaving. intros P. unfold callsOf, schedule, schedule'.
  rewrite !filter_cons, !filter_nil. simpl.
  destruct (decide ("binance" = P)), (decide ("kraken" = P));
    try reflexivity; congruence.
Defined.

(** The schedule in which the call of kraken falls between the two calls of
    binance. *)
Lemma fetchAll_interleaving_witness :
  runCalls schedule NewProviderAggregator = fetchAll threePairs fetch_both.
Proof.
  apply fetchAll_interleaving. intros P. unfold callsOf, schedule, threePairs.
  rewrite !filter_cons, !filter_nil. simpl.
  destruct (decide ("binance" = P)) as [<-|Hb].
  - vm_compute. reflexivity.
  - destruct (decide ("kraken" = P)) as [<-|Hk].
    + vm_compute. reflexivity.
    + by rewrite lookup_insert_ne, lookup_singleton_ne by done.
Defined.

Lemma allDecode_commitInfo : allDecode (Votes commitInfo).
Proof. repeat constructor; eexists; vm_compute; reflexivity. Qed.

(** The three votes of the scenario: the price for ATOM is 10.00, and there
    is no price for BTC. *)
Lemma computeStakeWeightedOraclePrices_mean_witness :
  ∃ swp,
    computeStakeWeightedOraclePrices proposalHandler commitInfo = Ok swp
    ∧ swp !! "ATOM" = Some (cents 1000)
    ∧ swp !! "BTC" = None.
Proof.
  destruct (computeStakeWeightedOraclePrices_mean proposalHandler commitInfo)
    as (swp & Hswp & Hlook).
  - apply allDecode_commitInfo.
  - vm_compute. discriminate.
  - exists swp. split_and!; [exact Hswp| |]; rewrite Hlook; vm_compute;
      reflexivity.
Defined.

(** The three votes of the scenario attest between 9.80 and 10.20. *)
Lemma computeStakeWeightedOraclePrices_between_witness :
  ∃ swp price,
    computeStakeWeightedOraclePrices proposalHandler commitInfo = Ok swp
    ∧ swp !! "ATOM" = Some price
    ∧ cents 980 ≤ price ≤ cents 1020.
Proof.
  apply (computeStakeWeightedOraclePrices_between proposalHandler commitInfo
           "ATOM" (cents 980) (cents 1020)).
  - unfold supportedBases. simpl. by apply list_elem_of_singleton.
  - discriminate.
  - apply allDecode_commitInfo.
  - repeat constructor; vm_compute; discriminate.
  - vm_compute. discriminate.
Defined.

(** The votes of the scenario and votes of the same powers and ATOM prices
    from other validators, declaring other heights and pricing BTC too. *)
Lemma computeStakeWeightedOraclePrices_reads_witness :
  computeStakeWeightedOraclePrices proposalHandler commitInfo
  = computeStakeWeightedOraclePrices proposalHandler commitInfo_other.
Proof.
  apply computeStakeWeightedOraclePrices_reads.
  repeat constructor; try (eexists; vm_compute; reflexivity);
    intros base Hbase; apply list_elem_of_singleton in Hbase as ->;
    vm_compute; reflexivity.
Defined.

(** The proposal prepared from the votes of the scenario, followed by
    another transaction. *)
Lemma ProcessProposal_accepts_prepared_witness :
  PrepareProposal proposalHandler {| LocalLastCommit := commitInfo |}
  = Returned {| pp_Txs := [injected_honest_tx] |}
  ∧ ProcessProposal proposalHandler
      {| Txs := [injected_honest_tx; "another transaction"] |}
    = Returned (proposalHandler,
                {| Status := ResponseProcessProposal_ACCEPT |}).
Proof.
  assert (Hprep :
    PrepareProposal proposalHandler {| LocalLastCommit := commitInfo |}
    = Returned {| pp_Txs := [injected_honest_tx] |}).
  { vm_compute. reflexivity. }
  split; [exact Hprep|].
  apply (ProcessProposal_accepts_prepared proposalHandler proposalHandler
           {| LocalLastCommit := commitInfo |} injected_honest_tx
           ["another transaction"] injected_honest Hprep).
  - vm_compute. reflexivity.
  - reflexivity.
Defined.

(** The votes of the scenario: the injected transaction is the record of
    10.00 for ATOM and the commit-info. *)
Lemma PrepareProposal_injects_witness :
  PrepareProposal proposalHandler {| LocalLastCommit := commitInfo |}
  = Returned {| pp_Txs := [injected_honest_tx] |}.
Proof.
  destruct (PrepareProposal_injects proposalHandler
              {| LocalLastCommit := commitInfo |})
    as (swp & Hlook & ->).
  - apply allDecode_commitInfo.
  - vm_compute. discriminate.
  - assert (swp = {[ "ATOM" := cents 1000 ]}) as ->.
    { apply map_eq. intros base. rewrite Hlook.
      destruct (decide (base = "ATOM")) as [->|Hne].
      - vm_compute. reflexivity.
      - rewrite lookup_singleton_ne by done. rewrite decide_False; [done|].
        unfold supportedBases. simpl. by rewrite list_elem_of_singleton. }
    vm_compute. reflexivity.
Defined.

(** The commit-info with no votes, prepared and, injected with a claim of
    11.00, processed. *)
Lemma ProposalHandler_zero_stake_witness :
  PrepareProposal proposalHandler {| LocalLastCommit := noVotes |}
  = Panicked PanicDivisionByZero
  ∧ ProcessProposal proposalHandler (proposal noVotes)
    = Panicked PanicDivisionByZero.
Proof.
  destruct (ProposalHandler_zero_stake proposalHandler noVotes)
    as [Hprep Hproc].
  - constructor.
  - reflexivity.
  - split; [exact Hprep|].
    apply (Hproc _ [] claimed). vm_compute. reflexivity.
Defined.


(** The extension made at height 100 is accepted for height 100 and refused
    for height 101. *)
Lemma VerifyVoteExtensionHandler_own_extension_witness :
  VerifyVoteExtensionHandler voteExtHandler_noProviders
    {| vv_Height := 100;
       vv_VoteExtension := attestation 100 "ATOM" (cents 1000);
       vv_ValidatorAddress := "val1" |}
  = Ok {| vv_Status := ResponseVerifyVoteExtension_ACCEPT |}
  ∧ VerifyVoteExtensionHandler voteExtHandler_noProviders
      {| vv_Height := 101;
         vv_VoteExtension := attestation 100 "ATOM" (cents 1000);
         vv_ValidatorAddress := "val1" |}
    = Err (ErrHeightMismatch 101 100).
Proof.
  assert (Hround : ∀ v bz, is_int64 (Height v) →
            Marshal_OracleVoteExtension v = Ok bz →
            Unmarshal_OracleVoteExtension bz = Ok v).
  { intros v bz Hv Hm.
    change (Ok (string_of_list_ascii (GoJSON.print_vote_ext v)) = Ok bz) in Hm.
    assert (bz = string_of_list_ascii (GoJSON.print_vote_ext v)) as ->
      by congruence.
    cbn [Unmarshal_OracleVoteExtension GoJSON.codec].
    unfold GoJSON.Unmarshal_vote_ext.
    rewrite list_ascii_of_string_of_list_ascii.
    by rewrite GoJSONFacts.parse_vote_ext_print_vote_ext. }
  assert (Hheight : is_int64 100).
  { unfold is_int64, int64_min, int64_max. lia. }
  assert (Hext :
    ExtendVoteHandler_with lastTradePrices voteExtHandler 0 fetch_ok
      {| ev_Height := 100 |}
    = (cachePrices (startExtendVote voteExtHandler 0 {| ev_Height := 100 |})
         100 {[ "ATOM" := cents 1000 ]},
       Ok {| ev_VoteExtension := attestation 100 "ATOM" (cents 1000) |})).
  { vm_compute. reflexivity. }
  split.
  - exact (VerifyVoteExtensionHandler_own_extension lastTradePrices
             voteExtHandler 0 fetch_ok {| ev_Height := 100 |} _ _
             voteExtHandler_noProviders 100 "val1" Hround Hheight Hext).
  - exact (VerifyVoteExtensionHandler_own_extension lastTradePrices
             voteExtHandler 0 fetch_ok {| ev_Height := 100 |} _ _
             voteExtHandler_noProviders 101 "val1" Hround Hheight Hext).
Defined.

End MoreScenarios.
